(** * The production-data agent: question-to-query translation and
    result enrichment (server/agent.js)

    A shallow embedding of the decision logic of [server/agent.js]:
    component-name extraction, intent classification, condition and
    pipeline construction, relative date ranges, defect-occurrence mapping,
    and the orchestration of store and language-model calls; of the HTTP
    server in front of the agent (its start, its health, query and test
    endpoints); and of the state of the client [client/src/App.js] (the
    submission of a question and the typing effect).

    Conventions of the embedding.
    - Text is a [string] of code units below 256 (the Latin-1 part of a
      JavaScript string).
    - JavaScript numbers that the code handles (counts, ids, time values)
      are integers, modelled in [Z] and [N].
    - A JavaScript object used as a dictionary is a [gmap string _]:
      property keys are strings, and a number used as a key is first
      converted to its decimal text.  The insertion order of properties
      is not modelled.
    - Exceptions are [Error] objects carrying a message; an awaited call
      of an external service either returns or throws.
    - The arithmetic of dates is that of the language, on local time
      values: [Date], [getDateFilter] and [buildConditions] compute on the
      local reading of the clock.  [Zoned] has the constructor, the getters
      and the setters on instants, through the zone of the host, and
      [Zoned.getDateFilter] and [Zoned.date_condition] on top of them; the
      two layers agree wherever no clock change disturbs the values made
      ([getDateFilter_local], [date_condition_fixedZone]), and differ on a
      day whose local midnight is skipped ([skipped_midnight]).  [TimeClip]
      is the identity. *)

From Stdlib Require Import ZArith NArith Ascii String List Bool Lia.
From stdpp Require Import base option list gmap strings pretty.

Open Scope Z_scope.

(** * Characters and strings *)

Module Char.

Definition code (c : ascii) : N := N_of_ascii c.

Definition in_range (lo hi : N) (c : ascii) : bool :=
  ((lo <=? code c) && (code c <=? hi))%N.

Definition is_char (d c : ascii) : bool := Ascii.eqb d c.

(** [\d] *)
Definition digit : ascii -> bool := in_range 48 57.

(** [\w] = [[A-Za-z0-9_]] *)
Definition word (c : ascii) : bool :=
  in_range 65 90 c || in_range 97 122 c || digit c || is_char "_" c.

(** [\s] restricted to code units below 256: TAB, LF, VT, FF, CR,
    SPACE and NO-BREAK SPACE. *)
Definition space (c : ascii) : bool :=
  in_range 9 13 c || (code c =? 32)%N || (code c =? 160)%N.

(** [.] matches everything except the line terminators. *)
Definition dot (c : ascii) : bool :=
  negb ((code c =? 10)%N || (code c =? 13)%N).

(** [[\s\S]] *)
Definition any (_ : ascii) : bool := true.

(** [[^d]] *)
Definition other_than (d c : ascii) : bool := negb (is_char d c).

Definition one_of (ps : list (ascii -> bool)) (c : ascii) : bool :=
  existsb (fun p => p c) ps.

(** [Canonicalize] of a non-Unicode, ignore-case regular expression:
    the upper-case form when it is a single code unit; a letter whose
    upper-case form lies outside the code units below 256 is left
    as it is. *)
Definition Canonicalize (c : ascii) : ascii :=
  if in_range 97 122 c || (in_range 224 254 c && negb (code c =? 247)%N)
  then ascii_of_N (code c - 32) else c.

Definition toLowerCase (c : ascii) : ascii :=
  if in_range 65 90 c || (in_range 192 222 c && negb (code c =? 215)%N)
  then ascii_of_N (code c + 32) else c.

Definition dquote : ascii := ascii_of_N 34.

(** A lower-case letter or a space: the characters of the keywords. *)
Definition plain (k : ascii) : bool := in_range 97 122 k || is_char " " k.

(** All the characters. *)
Definition all_chars : list ascii := ascii_of_nat <$> seq 0 256.

End Char.

Module Str.

Fixpoint map (f : ascii -> ascii) (s : string) : string :=
  match s with
  | EmptyString => EmptyString
  | String c s' => String (f c) (map f s')
  end.

(** [String.prototype.toLowerCase] *)
Definition toLowerCase : string -> string := map Char.toLowerCase.

Fixpoint occurs (d : ascii) (s : string) : bool :=
  match s with
  | EmptyString => false
  | String c s' => Char.is_char d c || occurs d s'
  end.

Fixpoint starts_with (w s : string) : bool :=
  match w, s with
  | EmptyString, _ => true
  | String a w', String b s' => Ascii.eqb a b && starts_with w' s'
  | String _ _, EmptyString => false
  end.

(** [String.prototype.includes] *)
Fixpoint includes (s w : string) : bool :=
  starts_with w s ||
  match s with
  | EmptyString => false
  | String _ s' => includes s' w
  end.

(** [String.prototype.replace] with a one-character global pattern. *)
Definition replace_all (d by_ : ascii) : string -> string :=
  map (fun c => if Char.is_char d c then by_ else c).

Definition last (prev : option ascii) (s : string) : option ascii :=
  (fix go (p : option ascii) (s : string) : option ascii :=
     match s with
     | EmptyString => p
     | String c s' => go (Some c) s'
     end) prev s.

Definition head (s : string) : option ascii :=
  match s with
  | EmptyString => None
  | String c _ => Some c
  end.

Fixpoint all (p : ascii -> bool) (s : string) : bool :=
  match s with
  | EmptyString => true
  | String c s' => p c && all p s'
  end.

Definition dquote : string := String Char.dquote EmptyString.

End Str.

(** * Regular expressions

    The regular expressions of the source, as syntax trees, with a
    backtracking matcher.  Every quantifier of the source applies to a
    single character class, so [Rep] carries a class.  The classes of the
    source contain a letter in both cases or in none, so the ignore-case
    flag only bears on literal text. *)

Inductive regex : Type :=
| Empty
| Never
| Lit (w : string)
| Class (p : ascii -> bool)
| Rep (p : ascii -> bool) (lo : nat) (hi : option nat) (lazy : bool)
| Seq (r1 r2 : regex)
| Alt (r1 r2 : regex)
| Group (n : nat) (r : regex)
| WordBoundary.

Definition seq_of (rs : list regex) : regex := foldr Seq Empty rs.
Definition alt_of (rs : list regex) : regex := foldr Alt Never rs.
Definition words (ws : list string) : regex := alt_of (Lit <$> ws).

(** [p*], [p+], [p{n}], and the lazy [p*?]. *)
Definition star (p : ascii -> bool) : regex := Rep p 0 None false.
Definition plus (p : ascii -> bool) : regex := Rep p 1 None false.
Definition exactly (n : nat) (p : ascii -> bool) : regex := Rep p n (Some n) false.
Definition lazy_star (p : ascii -> bool) : regex := Rep p 0 None true.

Record RegExp := { source : regex; ignoreCase : bool }.

(** One way of matching: the text matched, the input left, and the
    captures made on the way. *)
Definition captures : Type := list (nat * string).
Definition way : Type := string * string * captures.

Module Regex.

Definition same (i : bool) (a b : ascii) : bool :=
  if i then Ascii.eqb (Char.Canonicalize a) (Char.Canonicalize b)
  else Ascii.eqb a b.

(** Matching literal text at the front of the input. *)
Fixpoint strip (i : bool) (w s : string) : option (string * string) :=
  match w, s with
  | EmptyString, _ => Some (EmptyString, s)
  | String a w', String b s' =>
      if same i a b
      then '(m, r) ← strip i w' s'; Some (String b m, r)
      else None
  | String _ _, EmptyString => None
  end.

(** [n] repetitions are within the upper bound [hi]. *)
Definition fits (hi : option nat) (n : nat) : Prop :=
  match hi with Some h => (n <= h)%nat | None => True end.

Definition room (hi : option nat) : bool :=
  match hi with Some O => false | _ => true end.

Definition less (hi : option nat) : option nat := Nat.pred <$> hi.

(** The ways of taking [k] characters of class [p] from the front of the
    input, for [k] from 0 upwards, at most [hi]. *)
Fixpoint runs (p : ascii -> bool) (hi : option nat) (s : string) : list (string * string) :=
  (EmptyString, s) ::
  match s with
  | String a s' =>
      if p a && room hi
      then (fun '(m, r) => (String a m, r)) <$> runs p (less hi) s'
      else []
  | EmptyString => []
  end.

(** A greedy quantifier tries the longest run first, a lazy one the
    shortest. *)
Definition rep (p : ascii -> bool) (lo : nat) (hi : option nat) (lazy : bool) (s : string)
  : list (string * string) :=
  let long_enough := filter (fun mr => lo <= String.length mr.1)%nat (runs p hi s) in
  if lazy then long_enough else reverse long_enough.

Definition is_word (c : option ascii) : bool :=
  match c with Some a => Char.word a | None => false end.

(** All the ways in which [r] matches at the front of [s], in the order a
    backtracking matcher tries them; [prev] is the character before. *)
Fixpoint ways (i : bool) (r : regex) (prev : option ascii) (s : string) : list way :=
  match r with
  | Empty => [(EmptyString, s, [])]
  | Never => []
  | Lit w =>
      match strip i w s with
      | Some (m, s') => [(m, s', [])]
      | None => []
      end
  | Class p =>
      match s with
      | String a s' => if p a then [(String a EmptyString, s', [])] else []
      | EmptyString => []
      end
  | Rep p lo hi lazy => (fun '(m, s') => (m, s', [])) <$> rep p lo hi lazy s
  | Seq r1 r2 =>
      '(m1, s1, c1) ← ways i r1 prev s;
      '(m2, s2, c2) ← ways i r2 (Str.last prev m1) s1;
      [(m1 +:+ m2, s2, c1 ++ c2)]
  | Alt r1 r2 => ways i r1 prev s ++ ways i r2 prev s
  | Group n r => (fun '(m, s', c) => (m, s', (n, m) :: c)) <$> ways i r prev s
  | WordBoundary =>
      if xorb (is_word prev) (is_word (Str.head s))
      then [(EmptyString, s, [])] else []
  end.

(** The first match, trying each start position from the left. *)
Fixpoint search (i : bool) (r : regex) (prev : option ascii) (s : string) : option way :=
  match ways i r prev s with
  | w :: _ => Some w
  | [] =>
      match s with
      | String a s' => search i r (Some a) s'
      | EmptyString => None
      end
  end.

(** [String.prototype.match] with a regular expression without the [g]
    flag: [None] is [null]. *)
Definition exec (re : RegExp) (s : string) : option way :=
  search (ignoreCase re) (source re) None s.

(** [RegExp.prototype.test] *)
Definition test (re : RegExp) (s : string) : bool :=
  bool_decide (is_Some (exec re s)).

(** [m[n]]: the text captured by group [n]; [None] when the group took
    no part in the match. *)
Definition group (n : nat) (m : way) : option string :=
  snd <$> List.find (fun c => Nat.eqb c.1 n) m.2.

End Regex.

Notation "s '.match' re" := (Regex.exec re s) (at level 9, re at level 9, only parsing).

(** * Component-name extraction (agent.js, [extractComponentName]) *)

(** The three patterns of the source share one shape: a delimiter, a
    non-empty run of characters other than the delimiter captured as
    group 1, and the delimiter again.  The delimiters are the single
    quote, the double quote and the asterisk. *)
Definition delimited_by (d : ascii) : RegExp :=
  {| source := seq_of [Lit (String d ""); Group 1 (plus (Char.other_than d)); Lit (String d "")];
     ignoreCase := false |}.

Definition extractComponentName (query : string) : option string :=
  match Regex.exec (delimited_by "'") query with
  | Some singleQuoteMatch => Regex.group 1 singleQuoteMatch
  | None =>
      match Regex.exec (delimited_by Char.dquote) query with
      | Some doubleQuoteMatch => Regex.group 1 doubleQuoteMatch
      | None =>
          match Regex.exec (delimited_by "*") query with
          | Some asteriskMatch => Regex.group 1 asteriskMatch
          | None => None
          end
      end
  end.

(** * Intent classification (agent.js, [analyzeQuery]) *)

Record QueryAnalysis := {
  isBatchQuery : bool;
  isNGQuery : bool;
  needsAggregation : bool;
  isComparative : bool;
  isComponentList : bool;
  isGeneralQuery : bool
}.

(** [[\w_:\-]] and [[:\s]] *)
Definition id_char : ascii -> bool :=
  Char.one_of [Char.word; Char.is_char "_"; Char.is_char ":"; Char.is_char "-"].
Definition colon_or_space : ascii -> bool :=
  Char.one_of [Char.is_char ":"; Char.space].

Definition insensitive (r : regex) : RegExp := {| source := r; ignoreCase := true |}.

(** [/batch.*id.*[\w_:\-]+/i] *)
Definition re_isBatchQuery : RegExp :=
  insensitive (seq_of [Lit "batch"; star Char.dot; Lit "id"; star Char.dot; plus id_char]).

(** [/ng|not good|defect|reject/i] *)
Definition re_isNGQuery : RegExp :=
  insensitive (words ["ng"; "not good"; "defect"; "reject"]).

(** [/most|max|maximum|highest|lowest|min|minimum|average|sum|total/i] *)
Definition re_needsAggregation : RegExp :=
  insensitive (words ["most"; "max"; "maximum"; "highest"; "lowest"; "min";
                      "minimum"; "average"; "sum"; "total"]).

(** [/more|less|greater|than|compare/i] *)
Definition re_isComparative : RegExp :=
  insensitive (words ["more"; "less"; "greater"; "than"; "compare"]).

(** [/component|part|what.*component|which.*component|list.*component/i] *)
Definition re_isComponentList : RegExp :=
  insensitive (alt_of [Lit "component"; Lit "part";
                       seq_of [Lit "what"; star Char.dot; Lit "component"];
                       seq_of [Lit "which"; star Char.dot; Lit "component"];
                       seq_of [Lit "list"; star Char.dot; Lit "component"]]).

(** [/what.*data|which.*data|available.*data|have.*data/i] *)
Definition re_isGeneralQuery : RegExp :=
  insensitive (alt_of [seq_of [Lit "what"; star Char.dot; Lit "data"];
                       seq_of [Lit "which"; star Char.dot; Lit "data"];
                       seq_of [Lit "available"; star Char.dot; Lit "data"];
                       seq_of [Lit "have"; star Char.dot; Lit "data"]]).

Definition analyzeQuery (query : string) : QueryAnalysis :=
  let lowerQuery := Str.toLowerCase query in
  {| isBatchQuery := Regex.test re_isBatchQuery query;
     isNGQuery := Regex.test re_isNGQuery lowerQuery;
     needsAggregation := Regex.test re_needsAggregation lowerQuery;
     isComparative := Regex.test re_isComparative lowerQuery;
     isComponentList := Regex.test re_isComponentList lowerQuery;
     isGeneralQuery := Regex.test re_isGeneralQuery lowerQuery |}.

(** * Dates

    The date arithmetic of ECMAScript (Day, TimeWithinDay, DayFromYear,
    YearFromTime, MonthFromTime, DateFromTime, WeekDay, MakeTime, MakeDay,
    MakeDate) over integer time values, and the [Date] constructor and
    methods that [getDateFilter] and [parseQuery] call.  A [Date] is its
    local time value. *)

Module Date.

Definition msPerDay : Z := 86400000.
Definition msPerHour : Z := 3600000.
Definition msPerMinute : Z := 60000.
Definition msPerSecond : Z := 1000.

Definition Day (t : Z) : Z := t / msPerDay.
Definition TimeWithinDay (t : Z) : Z := t mod msPerDay.

Definition DaysInYear (y : Z) : Z :=
  if negb (y mod 4 =? 0) then 365
  else if negb (y mod 100 =? 0) then 366
  else if negb (y mod 400 =? 0) then 365
  else 366.

Definition DayFromYear (y : Z) : Z :=
  365 * (y - 1970) + (y - 1969) / 4 - (y - 1901) / 100 + (y - 1601) / 400.

(** The year of a day number: the largest [y] with [DayFromYear y] at
    most the day, computed over the cycles of 400, 100, 4 and 1 years
    counted from 1 January 1601. *)
Definition YearFromDay (d : Z) : Z :=
  let n := d + 134774 in
  let q400 := n / 146097 in
  let r400 := n mod 146097 in
  let q100 := Z.min 3 (r400 / 36524) in
  let r100 := r400 - q100 * 36524 in
  let q4 := r100 / 1461 in
  let r4 := r100 mod 1461 in
  let q1 := Z.min 3 (r4 / 365) in
  1601 + 400 * q400 + 100 * q100 + 4 * q4 + q1.

Definition YearFromTime (t : Z) : Z := YearFromDay (Day t).

Definition InLeapYear (t : Z) : Z :=
  if DaysInYear (YearFromTime t) =? 366 then 1 else 0.

Definition DayWithinYear (t : Z) : Z := Day t - DayFromYear (YearFromTime t).

Definition MonthFromTime (t : Z) : Z :=
  let d := DayWithinYear t in
  let leap := InLeapYear t in
  if d <? 31 then 0
  else if d <? 59 + leap then 1
  else if d <? 90 + leap then 2
  else if d <? 120 + leap then 3
  else if d <? 151 + leap then 4
  else if d <? 181 + leap then 5
  else if d <? 212 + leap then 6
  else if d <? 243 + leap then 7
  else if d <? 273 + leap then 8
  else if d <? 304 + leap then 9
  else if d <? 334 + leap then 10
  else 11.

(** The number of days of the year before month [m] (0 to 11). *)
Definition DaysBeforeMonth (leap m : Z) : Z :=
  if m =? 0 then 0
  else if m =? 1 then 31
  else if m =? 2 then 59 + leap
  else if m =? 3 then 90 + leap
  else if m =? 4 then 120 + leap
  else if m =? 5 then 151 + leap
  else if m =? 6 then 181 + leap
  else if m =? 7 then 212 + leap
  else if m =? 8 then 243 + leap
  else if m =? 9 then 273 + leap
  else if m =? 10 then 304 + leap
  else 334 + leap.

Definition DateFromTime (t : Z) : Z :=
  DayWithinYear t - DaysBeforeMonth (InLeapYear t) (MonthFromTime t) + 1.

Definition WeekDay (t : Z) : Z := (Day t + 4) mod 7.

Definition HourFromTime (t : Z) : Z := (t / msPerHour) mod 24.
Definition MinFromTime (t : Z) : Z := (t / msPerMinute) mod 60.
Definition SecFromTime (t : Z) : Z := (t / msPerSecond) mod 60.

Definition MakeTime (hour min sec ms : Z) : Z :=
  hour * msPerHour + min * msPerMinute + sec * msPerSecond + ms.

(** The day number of the first day of month [mn] of year [ym], moved
    by [date - 1] days; a month outside 0..11 carries into the year. *)
Definition MakeDay (year month date : Z) : Z :=
  let ym := year + month / 12 in
  let mn := month mod 12 in
  let leap := if DaysInYear ym =? 366 then 1 else 0 in
  DayFromYear ym + DaysBeforeMonth leap mn + date - 1.

Definition MakeDate (day time : Z) : Z := day * msPerDay + time.

(** [new Date(year, month, date, hours, minutes, seconds, ms)]; a year
    from 0 to 99 stands for 1900 + year. *)
Definition make (year month date hours minutes seconds ms : Z) : Z :=
  let yr := if (0 <=? year) && (year <=? 99) then 1900 + year else year in
  MakeDate (MakeDay yr month date) (MakeTime hours minutes seconds ms).

Definition getFullYear : Z -> Z := YearFromTime.
Definition getMonth : Z -> Z := MonthFromTime.
Definition getDate : Z -> Z := DateFromTime.
Definition getDay : Z -> Z := WeekDay.

(** The setters give the new time value of the object. *)
Definition setDate (t date : Z) : Z :=
  MakeDate (MakeDay (YearFromTime t) (MonthFromTime t) date) (TimeWithinDay t).

Definition setMilliseconds (t ms : Z) : Z :=
  MakeDate (Day t) (MakeTime (HourFromTime t) (MinFromTime t) (SecFromTime t) ms).

Definition setHours (t hour min sec ms : Z) : Z :=
  MakeDate (Day t) (MakeTime hour min sec ms).

End Date.

(** [{ $gte: ..., $lte: ... }]: both bounds belong to the range. *)
Record DateRange := { gte : Z; lte : Z }.

Definition in_range (r : DateRange) (t : Z) : Prop := gte r <= t <= lte r.

(** A property read [o[key]] on an object literal: [None] is [undefined]. *)
Definition property {A} (o : list (string * A)) (key : string) : option A :=
  snd <$> List.find (fun kv => String.eqb kv.1 key) o.

(** agent.js, [getDateFilter]; [now] is the reading of the clock by
    [new Date()]. *)
Definition getDateFilter (now : Z) (period : string) : option DateRange :=
  let startOfDay :=
    Date.make (Date.getFullYear now) (Date.getMonth now) (Date.getDate now) 0 0 0 0 in
  let endOfDay :=
    Date.make (Date.getFullYear now) (Date.getMonth now) (Date.getDate now) 23 59 59 999 in
  let startOfYesterday := Date.setDate startOfDay (Date.getDate startOfDay - 1) in
  let endOfYesterday := Date.setMilliseconds startOfDay (-1) in
  let startOfWeek := Date.setDate startOfDay (Date.getDate startOfDay - Date.getDay startOfDay) in
  let startOfLastWeek := Date.setDate startOfWeek (Date.getDate startOfWeek - 7) in
  let endOfLastWeek := Date.setMilliseconds startOfWeek (-1) in
  let startOfMonth := Date.make (Date.getFullYear now) (Date.getMonth now) 1 0 0 0 0 in
  let startOfLastMonth := Date.make (Date.getFullYear now) (Date.getMonth now - 1) 1 0 0 0 0 in
  let endOfLastMonth := Date.make (Date.getFullYear now) (Date.getMonth now) 0 23 59 59 999 in
  let filters :=
    [ ("today", {| gte := startOfDay; lte := endOfDay |});
      ("yesterday", {| gte := startOfYesterday; lte := endOfYesterday |});
      ("this week", {| gte := startOfWeek; lte := endOfDay |});
      ("last week", {| gte := startOfLastWeek; lte := endOfLastWeek |});
      ("this month", {| gte := startOfMonth; lte := endOfDay |});
      ("last month", {| gte := startOfLastMonth; lte := endOfLastMonth |}) ] in
  property filters (Str.toLowerCase period).

(** * JavaScript values stored in documents *)

Inductive JsVal : Type :=
| JUndefined
| JNull
| JBool (b : bool)
| JNum (n : Z)
| JStr (s : string).

Definition truthy (v : JsVal) : bool :=
  match v with
  | JUndefined | JNull => false
  | JBool b => b
  | JNum n => negb (n =? 0)
  | JStr s => negb (String.eqb s "")
  end.

(** [ToString], which also gives the property key of a value. *)
Definition ToString (v : JsVal) : string :=
  match v with
  | JUndefined => "undefined"
  | JNull => "null"
  | JBool true => "true"
  | JBool false => "false"
  | JNum n => pretty n
  | JStr s => s
  end.

(** [a || b] *)
Definition js_or (a b : JsVal) : JsVal := if truthy a then a else b.

(** [array.forEach((x, index) => ...)] where the callback updates an
    object [acc] that it closes over. *)
Fixpoint forEach_from {A B} (f : B -> A -> nat -> B) (l : list A) (index : nat) (acc : B) : B :=
  match l with
  | [] => acc
  | x :: l' => forEach_from f l' (S index) (f acc x index)
  end.

Definition forEach {A B} (f : B -> A -> nat -> B) (l : list A) (acc : B) : B :=
  forEach_from f l O acc.

(** * The defect catalog (agent.js, [getDefectInfo] and
    [mapDefectOccurrences]) *)

(** A document of the Defects collection. *)
Module DefectDoc.
Record t := {
  defect_id : JsVal;
  defect_class : JsVal;
  description : JsVal;
  is_acceptable : JsVal;
  defect_type : JsVal
}.
End DefectDoc.

(** A value of [defectMap]. *)
Module DefectInfo.
Record t := {
  defect_class : JsVal;
  description : JsVal;
  is_acceptable : JsVal;
  defect_type : JsVal
}.
End DefectInfo.

(** A value of [mappedDefects]. *)
Module MappedDefect.
Record t := {
  count : Z;
  description : JsVal;
  is_acceptable : JsVal;
  defect_type : JsVal
}.
End MappedDefect.

(** [o[key] = value] on an object [o] that an object literal created,
    for a [value] that is itself an object.  The map holds the own
    properties of [o].  The key __proto__ names the accessor that [o]
    inherits from [Object.prototype]: assigning an object under it replaces
    the prototype of [o] and adds no own property.  Every other key,
    also one that names an inherited data property such as constructor,
    becomes or updates an own property.

    The prototype itself is not part of the model, since nothing reads it:
    [JSON.stringify] and [Object.keys] see own properties only, and the one
    read by key, [defectMap[defectId]], has a number for [defectId], whose
    decimal text names no property of a prototype in reach
    ([Object.prototype], or an object with the fields of a catalog
    entry), so that it finds an own property or nothing. *)
Definition assign {V} (key : string) (value : V) (o : gmap string V) : gmap string V :=
  if String.eqb key "__proto__" then o else <[key := value]> o.

(** The loop of [getDefectInfo] that builds [defectMap] from the
    documents found. *)
Definition buildDefectMap (defects : list DefectDoc.t) : gmap string DefectInfo.t :=
  forEach (fun (defectMap : gmap string DefectInfo.t) defect _ =>
    assign (ToString (DefectDoc.defect_id defect))
      {| DefectInfo.defect_class := DefectDoc.defect_class defect;
         DefectInfo.description := DefectDoc.description defect;
         DefectInfo.is_acceptable := DefectDoc.is_acceptable defect;
         DefectInfo.defect_type := DefectDoc.defect_type defect |} defectMap)
    defects ∅.

(** The value of an occurrence field of a report: absent (or otherwise
    falsy), an array of counts, or some other truthy value. *)
Inductive Occurrences : Type :=
| OccAbsent
| OccArray (counts : list Z)
| OccOther.

Definition mapDefectOccurrences (defectOccurrences : Occurrences)
    (defectMap : gmap string DefectInfo.t) (defectType : JsVal)
  : gmap string MappedDefect.t :=
  match defectOccurrences with
  | OccArray counts =>
      forEach (fun (mappedDefects : gmap string MappedDefect.t) count index =>
        let defectId := Z.of_nat index + 1 in
        match 0 <? count, defectMap !! ToString (JNum defectId) with
        | true, Some defectInfo =>
            assign (ToString (DefectInfo.defect_class defectInfo))
              {| MappedDefect.count := count;
                 MappedDefect.description := DefectInfo.description defectInfo;
                 MappedDefect.is_acceptable := DefectInfo.is_acceptable defectInfo;
                 MappedDefect.defect_type :=
                   js_or defectType (DefectInfo.defect_type defectInfo) |} mappedDefects
        | true, None =>
            assign ("Unknown_Defect_" +:+ ToString (JNum defectId))
              {| MappedDefect.count := count;
                 MappedDefect.description :=
                   JStr ("Unknown defect with ID " +:+ ToString (JNum defectId));
                 MappedDefect.is_acceptable := JStr "unknown";
                 MappedDefect.defect_type := js_or defectType (JStr "unknown") |} mappedDefects
        | false, _ => mappedDefects
        end) counts ∅
  | OccAbsent | OccOther => ∅
  end.

(** * Conditions and pipelines *)

Inductive Predicate : Type :=
| Equals (v : string)
| MatchesRegex (pattern options : string)
| ExistsAndGt (n : Z)
| ExistsAndNotNull
| AtLeast (n : option Z).

(** The object [conditions] of [parseQuery]; a field that is [None] is
    not set. *)
Record Conditions := {
  batch_id : option Predicate;
  component_name : option Predicate;
  date : option DateRange;
  ng_parts : option Predicate;
  or_ : option (list (string * Predicate))
}.

Definition no_conditions : Conditions :=
  {| batch_id := None; component_name := None; date := None; ng_parts := None; or_ := None |}.

Inductive Accumulator : Type :=
| SumOf (n : Z)
| SumField (field : string)
| MaxField (field : string).

Inductive Stage : Type :=
| Match (c : Conditions)
| Sort (field : string) (direction : Z)
| Limit (n : nat)
| GroupBy (id : string) (fields : list (string * Accumulator)).

Definition Pipeline : Type := list Stage.

(** * Condition building (agent.js, [parseQuery]) *)

(** [/(batch|lot)[:\s]*([\w_:\-]+)/i] *)
Definition re_batch : RegExp :=
  insensitive (seq_of [Group 1 (words ["batch"; "lot"]); star colon_or_space;
                       Group 2 (plus id_char)]).

(** [/(component|part)[:\s]*([\w_]+)/i] *)
Definition re_component : RegExp :=
  insensitive (seq_of [Group 1 (words ["component"; "part"]); star colon_or_space;
                       Group 2 (plus (Char.one_of [Char.word; Char.is_char "_"]))]).

Definition relative_periods : list string :=
  ["today"; "yesterday"; "this week"; "last week"; "this month"; "last month"].

(** [/(today|yesterday|this week|last week|this month|last month)/i] *)
Definition re_relativeDate : RegExp :=
  insensitive (Group 1 (words relative_periods)).

(** [[_\/\-]] *)
Definition date_separator : ascii -> bool :=
  Char.one_of [Char.is_char "_"; Char.is_char "/"; Char.is_char "-"].

(** [/\b(\d{2}[_\/\-]\d{2}[_\/\-]\d{4})\b/i] *)
Definition re_absoluteDate : RegExp :=
  insensitive (seq_of [WordBoundary;
                       Group 1 (seq_of [exactly 2 Char.digit; Class date_separator;
                                        exactly 2 Char.digit; Class date_separator;
                                        exactly 4 Char.digit]);
                       WordBoundary]).

(** [/performance|efficiency|quality/i] *)
Definition re_performance : RegExp :=
  insensitive (words ["performance"; "efficiency"; "quality"]).

(** [/(production|quantity)[\s\S]*?(\d+)/i] *)
Definition re_production : RegExp :=
  insensitive (seq_of [Group 1 (words ["production"; "quantity"]); lazy_star Char.any;
                       Group 2 (plus Char.digit)]).

Module Text.

Fixpoint trimStart (s : string) : string :=
  match s with
  | String c s' => if Char.space c then trimStart s' else s
  | EmptyString => EmptyString
  end.

(** [String.prototype.trim] *)
Definition trim (s : string) : string :=
  String.rev (trimStart (String.rev (trimStart s))).

(** [parseInt] of a text that starts with decimal digits; [None] is
    [NaN].  The result is the exact integer; the code has the nearest
    double, which is the same number up to 2^53. *)
Definition parseInt (s : string) : option Z :=
  (fix go (acc : option Z) (s : string) : option Z :=
     match s with
     | String c s' =>
         if Char.digit c
         then go (Some (10 * default 0 acc + Z.of_N (Char.code c - 48))) s'
         else acc
     | EmptyString => acc
     end) None s.

End Text.

(** The part of [parseQuery] that fills [conditions], before the choice
    of what to return.  [Date_parse] is [new Date(text)] on a text that is
    not in the ISO format, which the language leaves to the implementation:
    [None] is an invalid date. *)
Definition buildConditions (Date_parse : string -> option Z) (now : Z) (query : string)
  : Conditions :=
  let queryAnalysis := analyzeQuery query in
  let batch_id :=
    match Regex.exec re_batch query with
    | Some batchMatch =>
        match Regex.group 2 batchMatch with
        | Some g =>
            if String.eqb g "" then None
            else
              let batchId := Text.trim g in
              if Str.includes batchId "_" || Str.includes batchId ":" || Str.includes batchId "-"
              then Some (Equals batchId)
              else Some (MatchesRegex batchId "i")
        | None => None
        end
    | None => None
    end in
  let component_name :=
    match Regex.exec re_component query with
    | Some componentMatch =>
        Some (MatchesRegex (default "undefined" (Regex.group 2 componentMatch)) "i")
    | None => None
    end in
  let relativeDateMatch := Regex.exec re_relativeDate query in
  let absoluteDateMatch := Regex.exec re_absoluteDate query in
  let date :=
    match relativeDateMatch, absoluteDateMatch with
    | Some m, _ => getDateFilter now (default "undefined" (Regex.group 1 m))
    | None, Some m =>
        let dateStr := Str.replace_all "_" "-" (default "undefined" (Regex.group 1 m)) in
        match Date_parse dateStr with
        | Some dateObj =>
            let startOfDay := Date.setHours dateObj 0 0 0 0 in
            let endOfDay := Date.setHours startOfDay 23 59 59 999 in
            Some {| gte := startOfDay; lte := endOfDay |}
        | None => None
        end
    | None, None => None
    end in
  let ng_parts := if isNGQuery queryAnalysis then Some (ExistsAndGt 0) else None in
  let or_performance :=
    if Regex.test re_performance query
    then Some [("performance", ExistsAndNotNull); ("quality", ExistsAndNotNull)]
    else None in
  let or_ :=
    match Regex.exec re_production query with
    | Some productionMatch =>
        let n := Regex.group 2 productionMatch ≫= Text.parseInt in
        Some [("actual_production", AtLeast n); ("planned_quantity", AtLeast n)]
    | None => or_performance
    end in
  {| batch_id := batch_id; component_name := component_name; date := date;
     ng_parts := ng_parts; or_ := or_ |}.

(** agent.js, [parseQuery]: the conditions built are given up for a
    general question and for a component listing. *)
Definition parseQuery (Date_parse : string -> option Z) (now : Z) (query : string)
  : Conditions :=
  let queryAnalysis := analyzeQuery query in
  let conditions := buildConditions Date_parse now query in
  if isGeneralQuery queryAnalysis || isComponentList queryAnalysis
  then no_conditions
  else conditions.

(** * Dates in the zone of the host

    The functions of [Date] above compute on local time values.  A [Date]
    object holds an instant, and the constructor, the getters and the
    setters go through the zone of the host: [LocalTime] before the fields
    are read, [UTC] after a local time value is made.  [LocalTZA_utc t] is
    the offset in force at the instant [t]; [LocalTZA_local v] is the
    offset by which the local time value [v] is converted, which for a
    local time that a clock change skips or repeats is the offset before
    the change. *)
Record Zone : Type := { LocalTZA_utc : Z -> Z; LocalTZA_local : Z -> Z }.

Module Zoned.
Section Zoned.

Variable zone : Zone.

Definition LocalTime (t : Z) : Z := t + LocalTZA_utc zone t.
Definition UTC (t : Z) : Z := t - LocalTZA_local zone t.

(** [new Date(year, month, date, hours, minutes, seconds, ms)] *)
Definition make (year month date hours minutes seconds ms : Z) : Z :=
  UTC (Date.make year month date hours minutes seconds ms).

Definition getFullYear (t : Z) : Z := Date.getFullYear (LocalTime t).
Definition getMonth (t : Z) : Z := Date.getMonth (LocalTime t).
Definition getDate (t : Z) : Z := Date.getDate (LocalTime t).
Definition getDay (t : Z) : Z := Date.getDay (LocalTime t).

Definition setDate (t date : Z) : Z := UTC (Date.setDate (LocalTime t) date).
Definition setMilliseconds (t ms : Z) : Z := UTC (Date.setMilliseconds (LocalTime t) ms).
Definition setHours (t hour min sec ms : Z) : Z :=
  UTC (Date.setHours (LocalTime t) hour min sec ms).

(** agent.js, [getDateFilter]; [now] is the instant read by
    [new Date()]. *)
Definition getDateFilter (now : Z) (period : string) : option DateRange :=
  let startOfDay := make (getFullYear now) (getMonth now) (getDate now) 0 0 0 0 in
  let endOfDay := make (getFullYear now) (getMonth now) (getDate now) 23 59 59 999 in
  let startOfYesterday := setDate startOfDay (getDate startOfDay - 1) in
  let endOfYesterday := setMilliseconds startOfDay (-1) in
  let startOfWeek := setDate startOfDay (getDate startOfDay - getDay startOfDay) in
  let startOfLastWeek := setDate startOfWeek (getDate startOfWeek - 7) in
  let endOfLastWeek := setMilliseconds startOfWeek (-1) in
  let startOfMonth := make (getFullYear now) (getMonth now) 1 0 0 0 0 in
  let startOfLastMonth := make (getFullYear now) (getMonth now - 1) 1 0 0 0 0 in
  let endOfLastMonth := make (getFullYear now) (getMonth now) 0 23 59 59 999 in
  let filters :=
    [ ("today", {| gte := startOfDay; lte := endOfDay |});
      ("yesterday", {| gte := startOfYesterday; lte := endOfYesterday |});
      ("this week", {| gte := startOfWeek; lte := endOfDay |});
      ("last week", {| gte := startOfLastWeek; lte := endOfLastWeek |});
      ("this month", {| gte := startOfMonth; lte := endOfDay |});
      ("last month", {| gte := startOfLastMonth; lte := endOfLastMonth |}) ] in
  property filters (Str.toLowerCase period).

(** agent.js, [parseQuery], lines 429 to 447: the date condition.
    [Date_parse] gives the instant of [new Date(text)], [None] for an
    invalid date; the second [setHours] acts on the object that the first
    one has changed. *)
Definition date_condition (Date_parse : string -> option Z) (now : Z) (query : string)
  : option DateRange :=
  let relativeDateMatch := Regex.exec re_relativeDate query in
  let absoluteDateMatch := Regex.exec re_absoluteDate query in
  match relativeDateMatch, absoluteDateMatch with
  | Some m, _ => getDateFilter now (default "undefined" (Regex.group 1 m))
  | None, Some m =>
      let dateStr := Str.replace_all "_" "-" (default "undefined" (Regex.group 1 m)) in
      match Date_parse dateStr with
      | Some dateObj =>
          let startOfDay := setHours dateObj 0 0 0 0 in
          let endOfDay := setHours startOfDay 23 59 59 999 in
          Some {| gte := startOfDay; lte := endOfDay |}
      | None => None
      end
  | None, None => None
  end.

End Zoned.
End Zoned.

(** * Pipeline choice (agent.js, [handleAggregationQuery]) *)

Definition ng_parts_positive : Conditions :=
  {| batch_id := None; component_name := None; date := None;
     ng_parts := Some (ExistsAndGt 0); or_ := None |}.

Definition choosePipeline (queryAnalysis : QueryAnalysis) : Pipeline :=
  if isNGQuery queryAnalysis then
    [Match ng_parts_positive; Sort "ng_parts" (-1); Limit 10]
  else if isComponentList queryAnalysis then
    [GroupBy "$component_name"
       [("total_batches", SumOf 1);
        ("total_production", SumField "$actual_production");
        ("latest_date", MaxField "$date")];
     Sort "total_production" (-1)]
  else if needsAggregation queryAnalysis then
    [Sort "actual_production" (-1); Limit 10]
  else
    [Sort "date" (-1); Limit 20].

(** * Documents and their presentation *)

(** A document of the Reports collection, or a row of an aggregation. *)
Module Report.
Record t := {
  batch_id : JsVal;
  component_name : JsVal;
  date : JsVal;
  actual_production : JsVal;
  ok_parts : JsVal;
  ng_parts : JsVal;
  defect_occurrences : Occurrences;
  ocr_defect_occurrences : Occurrences;
  dimensional_defect_occurrences : Occurrences;
  Quality : JsVal;
  Performance : JsVal;
  Availability : JsVal
}.
End Report.

(** An element of [enhancedResults]: the document and the three mapped
    fields, each [None] while it is not set. *)
Module Enhanced.
Record t := {
  item : Report.t;
  mapped_defect_occurrences : option (gmap string MappedDefect.t);
  mapped_ocr_defect_occurrences : option (gmap string MappedDefect.t);
  mapped_dimensional_defect_occurrences : option (gmap string MappedDefect.t)
}.
End Enhanced.

(** An element of [formattedResults]. *)
Module Formatted.
Record t := {
  batch_id : JsVal;
  component_name : JsVal;
  date : JsVal;
  actual_production : JsVal;
  ok_parts : JsVal;
  ng_parts : JsVal;
  defect_occurrences : option (gmap string MappedDefect.t);
  ocr_defect_occurrences : option (gmap string MappedDefect.t);
  dimensional_defect_occurrences : option (gmap string MappedDefect.t);
  quality : JsVal;
  performance : JsVal;
  availability : JsVal
}.
End Formatted.

Definition is_present (o : Occurrences) : bool :=
  match o with OccAbsent => false | _ => true end.

Definition is_array (o : Occurrences) : bool :=
  match o with OccArray _ => true | _ => false end.

(** The callback of [results.map] in [queryMongoDB]. *)
Definition enhance (defectMap : gmap string DefectInfo.t) (item : Report.t) : Enhanced.t :=
  {| Enhanced.item := item;
     Enhanced.mapped_defect_occurrences :=
       if is_present (Report.defect_occurrences item)
       then Some (mapDefectOccurrences (Report.defect_occurrences item) defectMap
                    (JStr "object_detection"))
       else None;
     Enhanced.mapped_ocr_defect_occurrences :=
       if is_present (Report.ocr_defect_occurrences item)
       then Some (mapDefectOccurrences (Report.ocr_defect_occurrences item) defectMap
                    (JStr "ocr"))
       else None;
     Enhanced.mapped_dimensional_defect_occurrences :=
       if is_present (Report.dimensional_defect_occurrences item)
          && is_array (Report.dimensional_defect_occurrences item)
       then Some (mapDefectOccurrences (Report.dimensional_defect_occurrences item) defectMap
                    (JStr "dimensional"))
       else None |}.

(** The callback of [enhancedResults.map] in [queryMongoDB]. *)
Definition format (e : Enhanced.t) : Formatted.t :=
  let item := Enhanced.item e in
  {| Formatted.batch_id := Report.batch_id item;
     Formatted.component_name := Report.component_name item;
     Formatted.date := Report.date item;
     Formatted.actual_production := Report.actual_production item;
     Formatted.ok_parts := Report.ok_parts item;
     Formatted.ng_parts := Report.ng_parts item;
     Formatted.defect_occurrences := Enhanced.mapped_defect_occurrences e;
     Formatted.ocr_defect_occurrences := Enhanced.mapped_ocr_defect_occurrences e;
     Formatted.dimensional_defect_occurrences :=
       Enhanced.mapped_dimensional_defect_occurrences e;
     Formatted.quality := Report.Quality item;
     Formatted.performance := Report.Performance item;
     Formatted.availability := Report.Availability item |}.

(** * Effects: exceptions and the calls of external services *)

Inductive Outcome (A : Type) : Type :=
| Return (a : A)
| Throw (message : string).
Arguments Return {A} a.
Arguments Throw {A} message.

(** The calls that leave the process: the store and the language model. *)
Inductive Event : Type :=
| NewMongoClient (uri : string)
| Connect
| Close
| Find (collection : string) (filter : Conditions) (limit : option nat)
| Aggregate (collection : string) (pipeline : Pipeline)
| GenerateContent (prompt : string).

(** What the language and the libraries provide, and the two prompt
    templates.  [formatComponents] is the presentation of the records of a
    component collection (agent.js, lines 131 to 229: the map over the
    records and [JSON.stringify]), which throws on a record of an
    unexpected shape.  The prompt templates take the question, the text of
    the results and the reading of the clock. *)
Record Runtime := {
  ComponentDoc : Type;
  formatComponents : list ComponentDoc -> Outcome string;
  JSON_stringify : list Formatted.t -> string;
  Date_parse : string -> option Z;
  componentPrompt : string -> string -> Z -> string;
  productionPrompt : string -> string -> Z -> string
}.

(** The environment of one call: the configuration, the clock, and what
    each external call answers. *)
Record World (R : Runtime) := {
  MONGODB_URI : option string;
  clock : Z;
  newMongoClient : string -> Outcome unit;
  connect : Outcome unit;
  close : Outcome unit;
  find_Defects : Outcome (list DefectDoc.t);
  find_Reports : Conditions -> Outcome (list Report.t);
  aggregate_Reports : Pipeline -> Outcome (list Report.t);
  find_component : string -> Outcome (list (ComponentDoc R));
  generateContent : string -> Outcome string
}.
Arguments MONGODB_URI {R} _.
Arguments clock {R} _.
Arguments newMongoClient {R} _ _.
Arguments connect {R} _.
Arguments close {R} _.
Arguments find_Defects {R} _.
Arguments find_Reports {R} _ _.
Arguments aggregate_Reports {R} _ _.
Arguments find_component {R} _ _.
Arguments generateContent {R} _ _.

(** [!!text] for a text that may be [null] or [undefined]. *)
Definition truthy_text (o : option string) : bool :=
  match o with
  | Some s => negb (String.eqb s "")
  | None => false
  end.

Definition lines (ls : list string) : string := String.concat (String "010" "") ls.

(** The answer of the agent to a question that names no component. *)
Definition guidance : string :=
  lines
    [ "I can help you with component inspection details! Please specify the component name using quotes or asterisks, for example:";
      "          - Please use this format to get exact results:    ";
      "          - use single quotes, double quotes, or asterisks to specify the component name.";
      "          ";
      "          Here are some examples of valid component queries:";
      "          - Show inspection summary of the component 'Component_Name'";
      "          - What is the status of " +:+ Str.dquote +:+ "9PLY_NORMAL" +:+ Str.dquote +:+ "?";
      "          - Display inspection results for *Marie*";
      "          - Show defects for 'PCN_PRT_25FT'";
      "";
      "          This helps me identify exactly which component you're asking about." ].

Definition no_reports : string := "No production reports found matching your query.".

(** [/component|part|inspect|defect|status|decision|image/i] *)
Definition component_keywords : list string :=
  ["component"; "part"; "inspect"; "defect"; "status"; "decision"; "image"].
Definition re_componentKeywords : RegExp := insensitive (words component_keywords).

Section Agent.

Variable R : Runtime.

(** A computation reads the world, appends the external calls it makes
    to the log, and returns or throws. *)
Definition M (A : Type) : Type := World R -> list Event -> Outcome A * list Event.

Definition ret {A} (a : A) : M A := fun _ log => (Return a, log).

Definition throw {A} (message : string) : M A := fun _ log => (Throw message, log).

Definition bind {A B} (c : M A) (k : A -> M B) : M B :=
  fun w log =>
    match c w log with
    | (Return a, log') => k a w log'
    | (Throw message, log') => (Throw message, log')
    end.

Definition read {A} (f : World R -> A) : M A := fun w log => (Return (f w), log).

(** An awaited call of an external service. *)
Definition call {A} (e : Event) (answer : World R -> Outcome A) : M A :=
  fun w log => (answer w, log ++ [e]).

Definition lift {A} (o : Outcome A) : M A := fun _ log => (o, log).

(** [try { body } catch (error) { handler(error.message) }] *)
Definition try_catch {A} (body : M A) (handler : string -> M A) : M A :=
  fun w log =>
    match body w log with
    | (Return a, log') => (Return a, log')
    | (Throw message, log') => handler message w log'
    end.

(** [try { body } finally { cleanup }]: an exception of the cleanup
    replaces the outcome of the body. *)
Definition try_finally {A} (body : M A) (cleanup : M unit) : M A :=
  fun w log =>
    match body w log with
    | (outcome, log') =>
        match cleanup w log' with
        | (Return _, log'') => (outcome, log'')
        | (Throw message, log'') => (Throw message, log'')
        end
    end.

Notation "'let*' x ':=' c 'in' k" := (bind c (fun x => k))
  (at level 10, x pattern, c at level 100, k at level 200).

(** agent.js, [getDefectInfo] *)
Definition getDefectInfo : M (gmap string DefectInfo.t) :=
  try_catch
    (let* defects := call (Find "Defects" no_conditions None) find_Defects in
     ret (buildDefectMap defects))
    (fun _ => ret ∅).

(** agent.js, [queryComponentDetails] *)
Definition queryComponentDetails (componentName : string) : M string :=
  try_catch
    (let* components :=
       call (Find componentName no_conditions (Some 20%nat))
            (fun w => find_component w componentName) in
     if (length components =? 0)%nat then
       ret ("No data found in collection '" +:+ componentName
            +:+ "'. The collection exists but is empty.")
     else
       let* defectMap := getDefectInfo in
       lift (formatComponents R components))
    (fun message =>
       if Str.includes message "collection name must be a string" then
         ret ("Error: Invalid component name '" +:+ componentName
              +:+ "'. Please check the component name and try again.")
       else if Str.includes message "ns not found" || Str.includes message "Collection" then
         ret ("Error: No collection found for component '" +:+ componentName
              +:+ "'. Please verify the component name exists in the database.")
       else
         ret ("Error querying component '" +:+ componentName +:+ "': " +:+ message)).

(** agent.js, [handleAggregationQuery] *)
Definition handleAggregationQuery (queryAnalysis : QueryAnalysis) : M (list Report.t) :=
  let pipeline := choosePipeline queryAnalysis in
  call (Aggregate "Reports" pipeline) (fun w => aggregate_Reports w pipeline).

(** The body of the [try] block of [queryMongoDB] once [client] is
    assigned. *)
Definition queryMongoDB_connected (query : string) : M string :=
  let* _ := call Connect connect in
  let componentName := extractComponentName query in
  if truthy_text componentName then
    queryComponentDetails (default "" componentName)
  else
    let* defectMap := getDefectInfo in
    let queryAnalysis := analyzeQuery query in
    let* results :=
      if needsAggregation queryAnalysis || isComponentList queryAnalysis then
        handleAggregationQuery queryAnalysis
      else
        let* now := read clock in
        let mongoQuery := parseQuery (Date_parse R) now query in
        call (Find "Reports" mongoQuery (Some 20%nat)) (fun w => find_Reports w mongoQuery) in
    let enhancedResults := enhance defectMap <$> results in
    if (length enhancedResults =? 0)%nat then
      ret no_reports
    else
      let formattedResults := format <$> enhancedResults in
      ret (JSON_stringify R formattedResults).

(** agent.js, [queryMongoDB].  The [finally] block closes the client
    only when [client] was assigned, that is when the constructor
    returned. *)
Definition queryMongoDB (query : string) : M string :=
  let on_error := fun message : string => ret ("Error querying database: " +:+ message) in
  fun w log =>
    let assigned :=
      (let* uri := read MONGODB_URI in
       if negb (truthy_text uri) then
         throw "MONGODB_URI is not set in environment variables"
       else
         call (NewMongoClient (default "" uri)) (fun w => newMongoClient w (default "" uri)))
        w log in
    match assigned with
    | (Throw message, log') => on_error message w log'
    | (Return _, log') =>
        try_finally (try_catch (queryMongoDB_connected query) on_error)
                    (call Close close) w log'
    end.

(** agent.js, [testGeminiAPI] *)
Definition testGeminiAPI : M bool :=
  try_catch
    (let testPrompt := "Hello, this is a test message." in
     let* _ := call (GenerateContent testPrompt) (fun w => generateContent w testPrompt) in
     ret true)
    (fun _ => ret false).

(** The function that [initializeProductionAgent] returns. *)
Definition answer (question : string) : M string :=
  try_catch
    (let hasComponentKeywords :=
       Regex.test re_componentKeywords (Str.toLowerCase question) in
     let componentName := extractComponentName question in
     if hasComponentKeywords && negb (truthy_text componentName) then
       ret guidance
     else
       let* dbResults := queryMongoDB question in
       let isComponentQuery := truthy_text componentName in
       let* now := read clock in
       let prompt :=
         if isComponentQuery then componentPrompt R question dbResults now
         else productionPrompt R question dbResults now in
       let* text := call (GenerateContent prompt) (fun w => generateContent w prompt) in
       ret text)
    (fun message =>
       if Str.includes message "API_KEY_INVALID" || Str.includes message "API key not valid"
       then ret "Error: Invalid Google Gemini API key. Please check your API key configuration."
       else ret "Sorry, I encountered an error processing your request. Please try again.").

(** agent.js, [initializeProductionAgent] *)
Definition initializeProductionAgent : M (string -> M string) :=
  let* _ :=
    try_catch
      (let* uri := read MONGODB_URI in
       if negb (truthy_text uri) then
         throw "MONGODB_URI is not set in environment variables"
       else
         let* _ := call (NewMongoClient (default "" uri))
                        (fun w => newMongoClient w (default "" uri)) in
         let* _ := call Connect connect in
         let* defectMap := getDefectInfo in
         call Close close)
      (fun _ => throw "MongoDB connection failed") in
  let* apiTest := testGeminiAPI in
  if negb apiTest then
    throw "Gemini API test failed. Please check your API key."
  else
    ret answer.

End Agent.

Arguments ret {R A} a.
Arguments throw {R A} message.
Arguments bind {R A B} c k.
Arguments read {R A} f.
Arguments call {R A} e answer.
Arguments lift {R A} o.
Arguments try_catch {R A} body handler.
Arguments try_finally {R A} body cleanup.

(** * Sample data *)

Definition sampleRuntime : Runtime :=
  {| ComponentDoc := unit;
     formatComponents := fun docs => Return "[...]";
     JSON_stringify := fun rows => "[...]";
     Date_parse := fun _ => None;
     componentPrompt := fun question dbResults _ => question +:+ dbResults;
     productionPrompt := fun question dbResults _ => question +:+ dbResults |}.

(** A store that is reachable and holds no record at all. *)
Definition emptyStore : World sampleRuntime :=
  {| MONGODB_URI := Some "mongodb://localhost:27017";
     clock := 1793574000123;
     newMongoClient := fun _ => Return ();
     connect := Return ();
     close := Return ();
     find_Defects := Return [];
     find_Reports := fun _ => Return [];
     aggregate_Reports := fun _ => Return [];
     find_component := fun _ => Return [];
     generateContent := fun _ => Return "FINAL ANSWER: nothing was found." |}.

(** A database given by its component collections.  As the driver does,
    a find on a name that is no collection of the database yields the
    empty result, and no error. *)
Definition database (collections : gmap string (list unit)) : World sampleRuntime :=
  {| MONGODB_URI := MONGODB_URI emptyStore;
     clock := clock emptyStore;
     newMongoClient := newMongoClient emptyStore;
     connect := connect emptyStore;
     close := close emptyStore;
     find_Defects := find_Defects emptyStore;
     find_Reports := find_Reports emptyStore;
     aggregate_Reports := aggregate_Reports emptyStore;
     find_component := fun componentName => Return (default [] (collections !! componentName));
     generateContent := generateContent emptyStore |}.

(** The three messages of [queryComponentDetails] that the claims name. *)
Definition empty_collection_message (componentName : string) : string :=
  "No data found in collection '" +:+ componentName +:+ "'. The collection exists but is empty.".
Definition invalid_name_message (componentName : string) : string :=
  "Error: Invalid component name '" +:+ componentName
  +:+ "'. Please check the component name and try again.".
Definition not_found_message (componentName : string) : string :=
  "Error: No collection found for component '" +:+ componentName
  +:+ "'. Please verify the component name exists in the database.".

Definition ng_pipeline : Pipeline :=
  [Match ng_parts_positive; Sort "ng_parts" (-1); Limit 10].

(** The query that [queryMongoDB] runs on the reports for a question
    without a component name. *)
Definition reports_query_result (R : Runtime) (w : World R) (q : string)
  : Outcome (list Report.t) :=
  if needsAggregation (analyzeQuery q) || isComponentList (analyzeQuery q)
  then aggregate_Reports w (choosePipeline (analyzeQuery q))
  else find_Reports w (parseQuery (Date_parse R) (clock w) q).

(** * Vocabulary of the specification *)

(** [name] is a text delimited by [d] in [q]: it stands between two
    occurrences of [d], is not empty and does not contain [d]; [pre] is
    what comes before the opening delimiter. *)
Definition delimited (d : ascii) (q pre name post : string) : Prop :=
  q = pre +:+ String d (name +:+ String d post) /\
  name <> "" /\ Str.occurs d name = false.

(** The first text delimited by [d]: the one that opens leftmost. *)
Definition first_delimited (d : ascii) (q name : string) : Prop :=
  exists pre post,
    delimited d q pre name post /\
    forall pre' name' post',
      delimited d q pre' name' post' -> (String.length pre <= String.length pre')%nat.

Definition no_delimited (d : ascii) (q : string) : Prop :=
  forall pre name post, ~ delimited d q pre name post.

(** [q] contains the lower-case word [kw], whatever the case of its
    letters in [q]. *)
Definition contains_ci (q kw : string) : Prop :=
  exists pre m post, q = pre +:+ m +:+ post /\ Str.toLowerCase m = kw.

(** The label under which index [index] of an occurrence array is
    emitted: the class of defect [index + 1] in the catalog, or the
    synthesized label when the catalog has no such defect. *)
Definition defect_label (defectMap : gmap string DefectInfo.t) (index : nat) : string :=
  match defectMap !! ToString (JNum (Z.of_nat index + 1)) with
  | Some defectInfo => ToString (DefectInfo.defect_class defectInfo)
  | None => "Unknown_Defect_" +:+ ToString (JNum (Z.of_nat index + 1))
  end.

(** The entry emitted for index [index] with count [count]. *)
Definition defect_entry (defectMap : gmap string DefectInfo.t) (defectType : JsVal)
    (index : nat) (count : Z) : MappedDefect.t :=
  match defectMap !! ToString (JNum (Z.of_nat index + 1)) with
  | Some defectInfo =>
      {| MappedDefect.count := count;
         MappedDefect.description := DefectInfo.description defectInfo;
         MappedDefect.is_acceptable := DefectInfo.is_acceptable defectInfo;
         MappedDefect.defect_type := js_or defectType (DefectInfo.defect_type defectInfo) |}
  | None =>
      {| MappedDefect.count := count;
         MappedDefect.description :=
           JStr ("Unknown defect with ID " +:+ ToString (JNum (Z.of_nat index + 1)));
         MappedDefect.is_acceptable := JStr "unknown";
         MappedDefect.defect_type := js_or defectType (JStr "unknown") |}
  end.

(** The count at index [i] is [c], and it is greater than 0. *)
Definition positive_at (counts : list Z) (i : nat) (c : Z) : Prop :=
  counts !! i = Some c /\ 0 < c.

(** The indices with a positive count have pairwise different labels. *)
Definition labels_distinct (defectMap : gmap string DefectInfo.t) (counts : list Z) : Prop :=
  forall i j ci cj,
    positive_at counts i ci -> positive_at counts j cj ->
    defect_label defectMap i = defect_label defectMap j -> i = j.

(** The label of every index with a positive count can name an own
    property: it is not the text __proto__. *)
Definition labels_assignable (defectMap : gmap string DefectInfo.t) (counts : list Z) : Prop :=
  forall i c, positive_at counts i c -> defect_label defectMap i <> "__proto__".

(** A catalog in which defects 1 and 2 have the same class. *)
Definition twoScratches : list DefectDoc.t :=
  [ {| DefectDoc.defect_id := JNum 1; DefectDoc.defect_class := JStr "Scratch";
       DefectDoc.description := JStr "Scratch on the surface";
       DefectDoc.is_acceptable := JBool false;
       DefectDoc.defect_type := JStr "object_detection" |};
    {| DefectDoc.defect_id := JNum 2; DefectDoc.defect_class := JStr "Scratch";
       DefectDoc.description := JStr "Scratch on the label";
       DefectDoc.is_acceptable := JBool true;
       DefectDoc.defect_type := JStr "ocr" |} ].

(** A catalog whose only defect has the class __proto__. *)
Definition protoClass : list DefectDoc.t :=
  [ {| DefectDoc.defect_id := JNum 1; DefectDoc.defect_class := JStr "__proto__";
       DefectDoc.description := JStr "Class taken from a key of the language";
       DefectDoc.is_acceptable := JBool false;
       DefectDoc.defect_type := JStr "ocr" |} ].

(** * Vocabulary of the calendar *)

Module Calendar.
Import Date.

(** 1 for a leap year, 0 otherwise. *)
Definition leap (y : Z) : Z := if DaysInYear y =? 366 then 1 else 0.



(** The first and the last millisecond of the current day, the first
    millisecond of the current week (from Sunday), of the current month
    and of the previous month. *)
Definition startOfToday (now : Z) : Z := Day now * msPerDay.
Definition endOfToday (now : Z) : Z := Day now * msPerDay + (msPerDay - 1).
Definition startOfThisWeek (now : Z) : Z := (Day now - WeekDay now) * msPerDay.
Definition startOfThisMonth (now : Z) : Z := (Day now - (DateFromTime now - 1)) * msPerDay.
Definition startOfPreviousMonth (now : Z) : Z :=
  MakeDay (YearFromTime now) (MonthFromTime now - 1) 1 * msPerDay.

End Calendar.

(** * Vocabulary of the zones *)

(** The zone reads the local time value [v] plainly, with the offset [c]:
    [v] is converted with [c], and [c] is in force at the instant
    obtained.  This fails of a local time that a clock change skips. *)
Definition plain (zone : Zone) (c v : Z) : Prop :=
  LocalTZA_local zone v = c /\ LocalTZA_utc zone (v - c) = c.

(** The local time values that [getDateFilter] makes when the clock
    reads the local time [local]: the bounds of the six ranges. *)
Definition bounds_of (local : Z) : list Z :=
  [ Calendar.startOfToday local; Calendar.endOfToday local;
    Calendar.startOfToday local - Date.msPerDay; Calendar.startOfToday local - 1;
    Calendar.startOfThisWeek local; Calendar.startOfThisWeek local - 7 * Date.msPerDay;
    Calendar.startOfThisWeek local - 1;
    Calendar.startOfThisMonth local; Calendar.startOfPreviousMonth local;
    Calendar.startOfThisMonth local - 1 ].

(** No clock change disturbs the bounds that [getDateFilter] makes at the
    instant [now]: the offset [c] is in force at [now], and every bound is
    read plainly with it. *)
Definition undisturbed (zone : Zone) (c now : Z) : Prop :=
  LocalTZA_utc zone now = c /\ Forall (plain zone c) (bounds_of (now + c)).

(** A range of local time values, converted with the offset [c]. *)
Definition shift (c : Z) (r : DateRange) : DateRange :=
  {| gte := gte r - c; lte := lte r - c |}.

(** A zone without clock changes. *)
Definition fixedZone (c : Z) : Zone :=
  {| LocalTZA_utc := fun _ => c; LocalTZA_local := fun _ => c |}.

(** A zone whose clocks go forward at the instant [change], from the
    offset [before] to the greater offset [after]: the local times from
    [change + before] to [change + after] are skipped, and are converted
    with the offset [before]. *)
Definition clocksForward (before after change : Z) : Zone :=
  {| LocalTZA_utc := fun t => if t <? change then before else after;
     LocalTZA_local := fun v => if v <? change + after then before else after |}.

(** Cairo around 24 April 2026: at 00:00 of that day the clocks went
    forward to 01:00. *)
Definition cairo : Zone :=
  clocksForward (2 * Date.msPerHour) (3 * Date.msPerHour) 1776981600000.

(** * More vocabulary and sample data *)

(** The fields that [getDefectInfo] keeps of a document of the catalog. *)
Definition info_of (defect : DefectDoc.t) : DefectInfo.t :=
  {| DefectInfo.defect_class := DefectDoc.defect_class defect;
     DefectInfo.description := DefectDoc.description defect;
     DefectInfo.is_acceptable := DefectDoc.is_acceptable defect;
     DefectInfo.defect_type := DefectDoc.defect_type defect |}.

(** The empty store, where the catalog of defects cannot be read. *)
Definition storeWithoutCatalog : World sampleRuntime :=
  {| MONGODB_URI := MONGODB_URI emptyStore;
     clock := clock emptyStore;
     newMongoClient := newMongoClient emptyStore;
     connect := connect emptyStore;
     close := close emptyStore;
     find_Defects := Throw "not authorized on test to execute command find";
     find_Reports := find_Reports emptyStore;
     aggregate_Reports := aggregate_Reports emptyStore;
     find_component := find_component emptyStore;
     generateContent := generateContent emptyStore |}.

(** The text that [answer] returns when an error reaches its handler. *)
Definition error_answer (message : string) : string :=
  if Str.includes message "API_KEY_INVALID" || Str.includes message "API key not valid"
  then "Error: Invalid Google Gemini API key. Please check your API key configuration."
  else "Sorry, I encountered an error processing your request. Please try again.".

(** The two pipelines that a question can reach through [answer]. *)
Definition production_pipeline : Pipeline := [Sort "actual_production" (-1); Limit 10].

(** The empty store, where the server cannot be reached. *)
Definition unreachableStore : World sampleRuntime :=
  {| MONGODB_URI := MONGODB_URI emptyStore;
     clock := clock emptyStore;
     newMongoClient := newMongoClient emptyStore;
     connect := Throw "connect ECONNREFUSED 127.0.0.1:27017";
     close := close emptyStore;
     find_Defects := find_Defects emptyStore;
     find_Reports := find_Reports emptyStore;
     aggregate_Reports := aggregate_Reports emptyStore;
     find_component := find_component emptyStore;
     generateContent := generateContent emptyStore |}.

(** The empty store, where the reports cannot be read. *)
Definition storeWithoutReports : World sampleRuntime :=
  {| MONGODB_URI := MONGODB_URI emptyStore;
     clock := clock emptyStore;
     newMongoClient := newMongoClient emptyStore;
     connect := connect emptyStore;
     close := close emptyStore;
     find_Defects := find_Defects emptyStore;
     find_Reports := fun _ => Throw "not authorized on test to execute command find";
     aggregate_Reports := fun _ => Throw "not authorized on test to execute command aggregate";
     find_component := find_component emptyStore;
     generateContent := generateContent emptyStore |}.

(** * The HTTP server (src/unnamed/part_000, lines 1 to 106) *)

Module Server.

(** A value parsed from a JSON text; a number is an integer, as in the
    documents of the store. *)
#[local] Unset Elimination Schemes.
Inductive Json : Type :=
| JsonNull
| JsonBool (b : bool)
| JsonNumber (n : Z)
| JsonString (s : string)
| JsonArray (items : list Json)
| JsonObject (fields : list (string * Json)).
#[local] Set Elimination Schemes.

(** The value of the property [key] of a parsed object, [None] for
    [undefined]; of two fields with the same key, [JSON.parse] keeps the
    later one. *)
Definition property (key : string) (fields : list (string * Json)) : option Json :=
  foldl (fun found field => if String.eqb field.1 key then Some field.2 else found)
        None fields.

(** What the JSON middleware [express.json()] leaves in [req.body] when
    it lets a request through to the handler: the parsed text, which is an
    object or an array, or nothing ([None], for [undefined]) when the
    request carried no JSON text.  The middleware answers every other
    request itself (a text that is not JSON, a JSON text that is neither
    an object nor an array, such as null, a body over the size limit), and
    the handler is not called for them. *)
Inductive Body : Type :=
| BodyObject (fields : list (string * Json))
| BodyArray (items : list Json).

(** [const { question } = req.body]: [undefined] cannot be destructured;
    an array has no such property. *)
Definition destructure (body : option Body) : Outcome (option Json) :=
  match body with
  | None => Throw "Cannot destructure property 'question' of 'req.body' as it is undefined."
  | Some (BodyObject fields) => Return (property "question" fields)
  | Some (BodyArray _) => Return None
  end.

Definition truthy (v : option Json) : bool :=
  match v with
  | None | Some JsonNull => false
  | Some (JsonBool b) => b
  | Some (JsonNumber n) => negb (n =? 0)
  | Some (JsonString s) => negb (String.eqb s "")
  | Some (JsonArray _) | Some (JsonObject _) => true
  end.

(** The receiver of [question.trim()]: only a text has the method. *)
Definition receiver_of_trim (v : option Json) : Outcome string :=
  match v with
  | Some (JsonString s) => Return s
  | _ => Throw "question.trim is not a function"
  end.

Inductive Payload : Type :=
| Error (error : string)
| Answer (response : string)
| Success (response : string).

Record Response : Type := { status : Z; json : Payload }.

(** The body of the health endpoint, without its time stamp. *)
Record Health : Type :=
  { health_status : string;
    agentInitialized : bool;
    error : option string;
    warnings : list string }.

Section Server.

Variable R : Runtime.

Record State : Type :=
  { productionAgent : option (string -> M R string);
    initializationError : option string;
    initializationWarnings : list string }.

(** The variables of the module when it is loaded. *)
Definition loaded : State :=
  {| productionAgent := None; initializationError := None; initializationWarnings := [] |}.

Definition fallbackAgent : string -> M R string :=
  fun _ =>
    ret "The AI agent is experiencing technical difficulties. Please try again later or contact support.".

(** [app.get("/api/health", ...)] *)
Definition health (st : State) : Health :=
  {| health_status := match productionAgent st with Some _ => "OK" | None => "ERROR" end;
     agentInitialized := match productionAgent st with Some _ => true | None => false end;
     error := initializationError st;
     warnings := initializationWarnings st |}.

(** The callback of [app.listen], over the function that it imports
    from the agent. *)
Definition listen (initializeProductionAgent : M R (string -> M R string)) (st : State)
  : M R State :=
  try_catch
    (bind initializeProductionAgent (fun agent =>
     ret {| productionAgent := Some agent;
            initializationError := initializationError st;
            initializationWarnings := initializationWarnings st |}))
    (fun message =>
       ret {| productionAgent := Some fallbackAgent;
              initializationError := Some message;
              initializationWarnings := initializationWarnings st |}).

(** [app.post("/api/query", ...)] *)
Definition postQuery (st : State) (body : option Body) : M R Response :=
  try_catch
    (bind (lift (destructure body)) (fun question =>
     match productionAgent st with
     | None =>
         ret {| status := 503;
                json := Error "Agent is still initializing. Please try again shortly." |}
     | Some agent =>
         if negb (truthy question) then
           ret {| status := 400; json := Error "Question is required" |}
         else
           bind (lift (receiver_of_trim question)) (fun text =>
           if (String.length (Text.trim text) =? 0)%nat then
             ret {| status := 400; json := Error "Question is required" |}
           else
             bind (agent text) (fun response =>
             ret {| status := 200; json := Answer response |}))
     end))
    (fun _ => ret {| status := 500; json := Error "Failed to process query" |}).

(** [app.get("/api/test", ...)] *)
Definition getTest (st : State) : M R Response :=
  try_catch
    (match productionAgent st with
     | None => ret {| status := 503; json := Error "Agent not initialized" |}
     | Some agent =>
         bind (agent "Test connection - what can you help me with?") (fun response =>
         ret {| status := 200; json := Success response |})
     end)
    (fun message => ret {| status := 500; json := Error message |}).

End Server.

Arguments productionAgent {R} s.
Arguments initializationError {R} s.
Arguments initializationWarnings {R} s.

(** A request with a question. *)
Definition asking (question : Json) : option Body :=
  Some (BodyObject [("question", question)]).

End Server.

(** The agents that the start of the server can install. *)
Definition installed R (agent : string -> M R string) : Prop :=
  agent = answer R \/ agent = Server.fallbackAgent R.

(** * The client (client/src/App.js) *)

Module App.

Record Message : Type := { role : string; content : string }.

(** The message that is being typed out. *)
Record Streaming : Type :=
  { streaming_role : string;
    streaming_content : string;
    fullContent : string }.

(** The state of the component [App]. *)
Record State : Type :=
  { input : string;
    conversation : list Message;
    loading : bool;
    error : string;
    streamingMessage : option Streaming }.

(** [s.slice(0, n)] *)
Definition slice_to (n : nat) (s : string) : string := String.substring 0 n s.

(** One run of the typing effect: with a message that is not typed out
    yet, the update that its timer makes, and with a message that is typed
    out, the move of the message into the conversation. *)
Definition typing (st : State) : State :=
  match streamingMessage st with
  | Some m =>
      if (String.length (streaming_content m) <? String.length (fullContent m))%nat then
        {| input := input st;
           conversation := conversation st;
           loading := loading st;
           error := error st;
           streamingMessage :=
             Some {| streaming_role := streaming_role m;
                     streaming_content :=
                       slice_to (String.length (streaming_content m) + 1) (fullContent m);
                     fullContent := fullContent m |} |}
      else if (String.length (streaming_content m) =? String.length (fullContent m))%nat then
        {| input := input st;
           conversation :=
             conversation st ++ [{| role := "assistant"; content := fullContent m |}];
           loading := loading st;
           error := error st;
           streamingMessage := None |}
      else st
  | None => st
  end.

(** [handleSubmit] up to the request: [None] when the submission is
    ignored. *)
Definition handleSubmit_request (st : State) : option (State * string) :=
  if String.eqb (Text.trim (input st)) "" || loading st then None
  else
    Some ({| input := input st;
             conversation := conversation st ++ [{| role := "user"; content := input st |}];
             loading := true;
             error := "";
             streamingMessage := streamingMessage st |},
          input st).

(** [handleSubmit] from the settlement of the request, on the state of
    that moment: [Return] carries [response.data.response]. *)
Definition handleSubmit_settled (response : Outcome string) (st : State) : State :=
  match response with
  | Return text =>
      {| input := "";
         conversation := conversation st;
         loading := false;
         error := error st;
         streamingMessage :=
           Some {| streaming_role := "assistant";
                   streaming_content := "";
                   fullContent := text |} |}
  | Throw _ =>
      {| input := "";
         conversation :=
           conversation st
           ++ [{| role := "assistant";
                  content := "Sorry, I encountered an error processing your request. Please try again." |}];
         loading := false;
         error := "Failed to get response from AI agent. Please try again.";
         streamingMessage := streamingMessage st |}
  end.

(** [clearConversation] *)
Definition clearConversation (st : State) : State :=
  {| input := input st;
     conversation := [];
     loading := loading st;
     error := "";
     streamingMessage := None |}.

End App.

(** The state while the text [text] is typed out, [k] characters of it
    being shown. *)
Definition typed (st : App.State) (role text : string) (k : nat) : App.State :=
  {| App.input := App.input st;
     App.conversation := App.conversation st;
     App.loading := App.loading st;
     App.error := App.error st;
     App.streamingMessage :=
       Some {| App.streaming_role := role;
               App.streaming_content := App.slice_to k text;
               App.fullContent := text |} |}.

(** The state once [text] has been moved into the conversation. *)
Definition delivered (st : App.State) (text : string) : App.State :=
  {| App.input := App.input st;
     App.conversation :=
       App.conversation st ++ [{| App.role := "assistant"; App.content := text |}];
     App.loading := App.loading st;
     App.error := App.error st;
     App.streamingMessage := None |}.

(** The server once it has started on the empty store, and once it has
    started while the store could not be reached. *)
Definition startedServer : Server.State sampleRuntime :=
  {| Server.productionAgent := Some (answer sampleRuntime);
     Server.initializationError := None;
     Server.initializationWarnings := [] |}.

Definition degradedServer : Server.State sampleRuntime :=
  {| Server.productionAgent := Some (Server.fallbackAgent sampleRuntime);
     Server.initializationError := Some "MongoDB connection failed";
     Server.initializationWarnings := [] |}.

(** A client with a question typed in, and a client that is typing out an
    answer. *)
Definition idleClient : App.State :=
  {| App.input := "show reports of lot 77";
     App.conversation := [];
     App.loading := false;
     App.error := "";
     App.streamingMessage := None |}.

Definition typingClient : App.State :=
  {| App.input := "";
     App.conversation := [{| App.role := "user"; App.content := "show reports of lot 77" |}];
     App.loading := false;
     App.error := "";
     App.streamingMessage :=
       Some {| App.streaming_role := "assistant";
               App.streaming_content := "No";
               App.fullContent := "No reports were found." |} |}.

(** * Facts about strings *)

Module StrFacts.

Lemma app_cons c s t : String c s +:+ t = String c (s +:+ t).
Proof. reflexivity. Qed.

Lemma app_nil_l s : "" +:+ s = s.
Proof. reflexivity. Qed.

Ltac norm := rewrite ?app_cons, ?app_nil_l in *; simpl in *.

Lemma app_nil_r s : s +:+ "" = s.
Proof. induction s as [|c s IH]; norm; [done | by rewrite IH]. Qed.

Lemma app_assoc a b c : (a +:+ b) +:+ c = a +:+ b +:+ c.
Proof. induction a as [|x a IH]; norm; [done | by rewrite IH]. Qed.

Lemma length_app a b : String.length (a +:+ b) = (String.length a + String.length b)%nat.
Proof. induction a as [|x a IH]; norm; [done | by rewrite IH]. Qed.

Lemma last_cons prev c s : Str.last prev (String c s) = Str.last (Some c) s.
Proof. done. Qed.

Lemma last_app prev a b : Str.last prev (a +:+ b) = Str.last (Str.last prev a) b.
Proof.
  revert prev. induction a as [|x a IH]; intros prev; [done |].
  rewrite app_cons, !last_cons. apply IH.
Qed.

Lemma map_app f a b : Str.map f (a +:+ b) = Str.map f a +:+ Str.map f b.
Proof. induction a as [|x a IH]; norm; [done | by rewrite IH]. Qed.

Lemma length_map f a : String.length (Str.map f a) = String.length a.
Proof. induction a as [|x a IH]; simpl; [done | by rewrite IH]. Qed.

Lemma occurs_app d a b : Str.occurs d (a +:+ b) = Str.occurs d a || Str.occurs d b.
Proof. induction a as [|x a IH]; norm; [done | by rewrite IH, orb_assoc]. Qed.

Lemma length_zero s : String.length s = 0%nat -> s = "".
Proof. by destruct s. Qed.

(** Two ways of cutting the same text, the first cut shorter. *)
Lemma app_eq_shorter a b c d :
  a +:+ b = c +:+ d -> (String.length a <= String.length c)%nat ->
  exists e, c = a +:+ e /\ b = e +:+ d.
Proof.
  revert c. induction a as [|x a IH]; intros c H Hlen; norm.
  - by exists c.
  - destruct c as [|y c]; norm; [lia |].
    injection H as -> H. destruct (IH c H) as (e & -> & ->); [lia |]. by exists e.
Qed.

Lemma app_eq_same_length a b c d :
  a +:+ b = c +:+ d -> String.length a = String.length c -> a = c /\ b = d.
Proof.
  intros H Hlen. destruct (app_eq_shorter a b c d H) as (e & -> & ->); [lia |].
  rewrite length_app in Hlen. assert (e = "") as -> by (apply length_zero; lia).
  by rewrite app_nil_r.
Qed.

End StrFacts.

(** * Facts about the matcher *)

Module RegexFacts.
Import Regex StrFacts.

Lemma search_Some i r prev s w :
  search i r prev s = Some w ->
  exists pre post,
    s = pre +:+ post /\
    (exists tl, ways i r (Str.last prev pre) post = w :: tl) /\
    forall pre' post',
      s = pre' +:+ post' -> (String.length pre' < String.length pre)%nat ->
      ways i r (Str.last prev pre') post' = [].
Proof.
  revert prev. induction s as [|c s IH]; intros prev; simpl.
  - destruct (ways i r prev "") as [|w' tl] eqn:E; [done |].
    intros [= ->]. exists "", "". split; [done |]. split; [by exists tl |].
    intros pre' post' _ Hlen. simpl in Hlen. lia.
  - destruct (ways i r prev (String c s)) as [|w' tl] eqn:E.
    + intros H. destruct (IH _ H) as (pre & post & -> & Hw & Hmin).
      exists (String c pre), post. split; [done |]. split; [done |].
      intros [|c' pre'] post' Heq Hlen; norm.
      * by rewrite <- Heq.
      * injection Heq as <- Heq. apply Hmin; [done | lia].
    + intros [= ->]. exists "", (String c s). split; [done |]. split; [by exists tl |].
      intros pre' post' _ Hlen. simpl in Hlen. lia.
Qed.

Lemma search_None i r prev s :
  search i r prev s = None ->
  forall pre post, s = pre +:+ post -> ways i r (Str.last prev pre) post = [].
Proof.
  revert prev. induction s as [|c s IH]; intros prev; simpl.
  - destruct (ways i r prev "") eqn:E; [|done].
    intros _ [|c pre] post Heq; norm; [by subst | done].
  - destruct (ways i r prev (String c s)) eqn:E; [|done].
    intros H [|c' pre] post Heq; norm.
    + by rewrite <- Heq.
    + injection Heq as <- Heq. by apply IH.
Qed.

Lemma search_first i r prev pre post w tl :
  ways i r (Str.last prev pre) post = w :: tl ->
  (forall pre' post',
      pre +:+ post = pre' +:+ post' -> (String.length pre' < String.length pre)%nat ->
      ways i r (Str.last prev pre') post' = []) ->
  search i r prev (pre +:+ post) = Some w.
Proof.
  revert prev. induction pre as [|c pre IH]; intros prev Hw Hmin; norm.
  - destruct post; simpl; by rewrite Hw.
  - pose proof (Hmin "" (String c (pre +:+ post)) eq_refl ltac:(simpl; lia)) as H0.
    simpl in H0. rewrite H0.
    apply IH; [done |].
    intros pre' post' Heq Hlen. apply (Hmin (String c pre')); norm; [by rewrite Heq | lia].
Qed.

Lemma search_all_empty i r prev s :
  (forall pre post, s = pre +:+ post -> ways i r (Str.last prev pre) post = []) ->
  search i r prev s = None.
Proof.
  revert prev. induction s as [|c s IH]; intros prev H; simpl.
  - pose proof (H "" "" eq_refl) as H0. simpl in H0. by rewrite H0.
  - pose proof (H "" (String c s) eq_refl) as H0. simpl in H0. rewrite H0.
    apply IH. intros pre post ->. by apply (H (String c pre)).
Qed.

Lemma strip_exact w s m r :
  strip false w s = Some (m, r) <-> m = w /\ s = w +:+ r.
Proof.
  revert s m r. induction w as [|a w IH]; intros s m r; simpl.
  - split; [by intros [= <- <-] | intros [-> Hs]; norm; by subst].
  - destruct s as [|b s]; [split; [done | by intros [_ ?]] |].
    rewrite app_cons. destruct (Ascii.eqb_spec a b) as [<- | Hne].
    + destruct (strip false w s) as [[m' r']|] eqn:E; simpl.
      * apply IH in E as [-> ->].
        split; [by intros [= <- <-] | by intros [-> [= ->%(inj _)]]].
      * split; [done |]. intros [-> [= Hs]].
        assert (strip false w s = Some (w, r)) as E' by by apply IH.
        congruence.
    + split; [done | intros [_ [= ? _]]; done].
Qed.

Lemma strip_insensitive w s m r :
  strip true w s = Some (m, r) <->
  s = m +:+ r /\ Str.map Char.Canonicalize w = Str.map Char.Canonicalize m.
Proof.
  revert s m r. induction w as [|a w IH]; intros s m r; simpl.
  - split; [by intros [= <- <-] |]. intros [-> Hm]. by destruct m.
  - destruct s as [|b s].
    { split; [done |]. intros [Hs Hm]. destruct m; [done | by rewrite app_cons in Hs]. }
    destruct (Ascii.eqb_spec (Char.Canonicalize a) (Char.Canonicalize b)) as [Hab | Hne].
    + destruct (strip true w s) as [[m' r']|] eqn:E; simpl.
      * apply IH in E as [-> E]. split.
        -- intros [= <- <-]. rewrite app_cons. simpl. by rewrite Hab, E.
        -- intros [Hs Hm]. destruct m as [|b' m]; [done |].
           rewrite app_cons in Hs. injection Hs as <- Hs. injection Hm as _ Hm.
           assert (strip true w (m' +:+ r') = Some (m, r)) as E' by (apply IH; by rewrite Hs).
           assert (strip true w (m' +:+ r') = Some (m', r')) as E'' by by apply IH.
           congruence.
      * split; [done |]. intros [Hs Hm]. destruct m as [|b' m]; [done |].
        rewrite app_cons in Hs. injection Hs as <- Hs. injection Hm as _ Hm.
        assert (strip true w s = Some (m, r)) as E' by by apply IH.
        congruence.
    + split; [done |]. intros [Hs Hm]. destruct m as [|b' m]; [done |].
      rewrite app_cons in Hs. injection Hs as <- Hs. by injection Hm as Hm _.
Qed.

Lemma elem_of_runs p hi s m r :
  (m, r) ∈ runs p hi s <-> s = m +:+ r /\ Str.all p m = true /\ fits hi (String.length m).
Proof.
  revert hi m r. induction s as [|a s IH]; intros hi m r; simpl.
  - rewrite list_elem_of_singleton. split.
    + intros [= -> ->]. by destruct hi; simpl; repeat split; try lia.
    + intros (Hs & _ & _). destruct m; norm; [by subst | done].
  - rewrite elem_of_cons. split.
    + intros [[= -> ->] | H].
      * destruct hi; simpl; repeat split; lia.
      * destruct (p a) eqn:Hp; simpl in H; [| by apply elem_of_nil in H].
        destruct (room hi) eqn:Hr; simpl in H; [| by apply elem_of_nil in H].
        apply list_elem_of_fmap in H as [[m' r'] [[= -> ->] H]].
        apply IH in H as (-> & Hall & Hfit).
        rewrite app_cons. simpl. rewrite Hp, Hall. repeat split.
        destruct hi as [[|h]|]; simpl in *; [done | lia | done].
    + intros (Hs & Hall & Hfit). destruct m as [|b m]; norm; [left; by subst |].
      right. injection Hs as -> ->.
      simpl in Hall. apply andb_true_iff in Hall as [Hp Hall]. rewrite Hp.
      assert (room hi = true) as -> by (destruct hi as [[|h]|]; simpl in *; [lia | done | done]).
      simpl. apply list_elem_of_fmap. exists (m, r). split; [done |].
      apply IH. repeat split; [done |]. destruct hi as [[|h]|]; simpl in *; lia.
Qed.

Lemma elem_of_rep p lo hi lazy s m r :
  (m, r) ∈ rep p lo hi lazy s <->
  s = m +:+ r /\ Str.all p m = true /\ (lo <= String.length m)%nat /\ fits hi (String.length m).
Proof.
  unfold rep.
  destruct lazy; rewrite ?elem_of_reverse, list_elem_of_filter, elem_of_runs; simpl; tauto.
Qed.

Lemma all_other_than d s : Str.all (Char.other_than d) s = negb (Str.occurs d s).
Proof.
  induction s as [|c s IH]; simpl; [done |].
  rewrite IH. unfold Char.other_than. by rewrite negb_orb.
Qed.

(** Membership in [ways], constructor by constructor. *)

Lemma elem_of_ways_Empty i prev s m rest c :
  (m, rest, c) ∈ ways i Empty prev s <-> m = "" /\ rest = s /\ c = [].
Proof.
  simpl. rewrite list_elem_of_singleton.
  split; [by intros [= -> -> ->] | by intros (-> & -> & ->)].
Qed.

Lemma elem_of_ways_Never i prev s w : w ∈ ways i Never prev s <-> False.
Proof. simpl. apply elem_of_nil. Qed.

Lemma elem_of_ways_Lit i w prev s m rest c :
  (m, rest, c) ∈ ways i (Lit w) prev s <-> strip i w s = Some (m, rest) /\ c = [].
Proof.
  simpl. destruct (strip i w s) as [[m' r']|].
  - rewrite list_elem_of_singleton.
    split; [by intros [= -> -> ->] | by intros [[= -> ->] ->]].
  - rewrite elem_of_nil. split; [done | by intros [? _]].
Qed.

Lemma elem_of_ways_Rep i p lo hi lazy prev s m rest c :
  (m, rest, c) ∈ ways i (Rep p lo hi lazy) prev s <->
  s = m +:+ rest /\ Str.all p m = true /\ (lo <= String.length m)%nat /\
  fits hi (String.length m) /\ c = [].
Proof.
  simpl. rewrite list_elem_of_fmap. split.
  - intros [[m' r'] [[= -> -> ->] H]]. apply elem_of_rep in H.
    by destruct H as (? & ? & ? & ?).
  - intros (Hs & Hall & Hlo & Hfit & ->). exists (m, rest). split; [done |].
    by apply elem_of_rep.
Qed.

Lemma elem_of_ways_Seq i r1 r2 prev s m rest c :
  (m, rest, c) ∈ ways i (Seq r1 r2) prev s <->
  exists m1 s1 c1 m2 c2,
    (m1, s1, c1) ∈ ways i r1 prev s /\
    (m2, rest, c2) ∈ ways i r2 (Str.last prev m1) s1 /\
    m = m1 +:+ m2 /\ c = c1 ++ c2.
Proof.
  simpl. rewrite list_elem_of_bind. split.
  - intros [[[m1 s1] c1] [H H1]].
    apply list_elem_of_bind in H as [[[m2 s2] c2] [H H2]].
    apply list_elem_of_singleton in H as [= -> -> ->].
    by exists m1, s1, c1, m2, c2.
  - intros (m1 & s1 & c1 & m2 & c2 & H1 & H2 & -> & ->).
    exists (m1, s1, c1). split; [| done].
    apply list_elem_of_bind. exists (m2, rest, c2). split; [| done].
    by apply list_elem_of_singleton.
Qed.

Lemma elem_of_ways_Alt i r1 r2 prev s w :
  w ∈ ways i (Alt r1 r2) prev s <-> w ∈ ways i r1 prev s \/ w ∈ ways i r2 prev s.
Proof. simpl. apply elem_of_app. Qed.

Lemma elem_of_ways_Group i n r prev s m rest c :
  (m, rest, c) ∈ ways i (Group n r) prev s <->
  exists c', (m, rest, c') ∈ ways i r prev s /\ c = (n, m) :: c'.
Proof.
  simpl. rewrite list_elem_of_fmap. split.
  - intros [[[m' r'] c'] [[= -> -> ->] H]]. by exists c'.
  - intros (c' & H & ->). by exists (m, rest, c').
Qed.

(** The ways in which a delimited text matches at the front of [s]. *)
Lemma elem_of_ways_delimited d prev s m rest c :
  (m, rest, c) ∈ ways false (source (delimited_by d)) prev s <->
  exists name,
    s = String d (name +:+ String d rest) /\ name <> "" /\ Str.occurs d name = false /\
    m = String d (name +:+ String d "") /\ c = [(1%nat, name)].
Proof.
  unfold delimited_by, seq_of, plus. cbn [source foldr].
  rewrite elem_of_ways_Seq. split.
  - intros (m1 & s1 & c1 & m2 & c2 & [H1 ->]%elem_of_ways_Lit & H2 & -> & ->).
    apply strip_exact in H1 as [-> ->].
    apply elem_of_ways_Seq in H2 as (m3 & s3 & c3 & m4 & c4 & H3 & H4 & -> & ->).
    apply elem_of_ways_Group in H3 as (c' & H3 & ->).
    apply elem_of_ways_Rep in H3 as (Hs & Hall & Hlo & _ & ->).
    apply elem_of_ways_Seq in H4 as (m5 & s5 & c5 & m6 & c6 & [H5 ->]%elem_of_ways_Lit & H6 & -> & ->).
    apply strip_exact in H5 as [-> ->].
    apply elem_of_ways_Empty in H6 as (-> & -> & ->).
    exists m3. norm. rewrite all_other_than in Hall.
    repeat split; try done.
    + by rewrite Hs.
    + intros ->. simpl in Hlo. lia.
    + by destruct (Str.occurs d m3).
  - intros (name & -> & Hne & Hocc & -> & ->).
    exists (String d ""), (name +:+ String d rest), [], (name +:+ String d ""), [(1%nat, name)].
    split; [apply elem_of_ways_Lit; split; [by apply strip_exact | done] |].
    split; [| done].
    apply elem_of_ways_Seq.
    exists name, (String d rest), [(1%nat, name)], (String d ""), [].
    split.
    { apply elem_of_ways_Group. exists []. split; [| done].
      apply elem_of_ways_Rep. rewrite all_other_than, Hocc. repeat split; try done.
      destruct name; [done | simpl; lia]. }
    split; [| done].
    apply elem_of_ways_Seq. exists (String d ""), rest, [], "", [].
    split; [apply elem_of_ways_Lit; split; [by apply strip_exact | done] |].
    split; [by apply elem_of_ways_Empty | done].
Qed.

Lemma delimited_unique d name post name' post' :
  name +:+ String d post = name' +:+ String d post' ->
  Str.occurs d name = false -> Str.occurs d name' = false ->
  name = name' /\ post = post'.
Proof.
  revert name'. induction name as [|c name IH]; intros [|c' name'] H Ho Ho'; norm.
  - by injection H as ->.
  - injection H as <- _. unfold Char.is_char in Ho'. by rewrite Ascii.eqb_refl in Ho'.
  - injection H as -> _. unfold Char.is_char in Ho. by rewrite Ascii.eqb_refl in Ho.
  - injection H as <- H. apply orb_false_iff in Ho as [_ Ho], Ho' as [_ Ho'].
    destruct (IH name' H Ho Ho') as [-> ->]. done.
Qed.

(** [match] with a delimiter pattern finds the first delimited text. *)
Lemma exec_delimited_first d q name :
  first_delimited d q name ->
  exists w, exec (delimited_by d) q = Some w /\ group 1 w = Some name.
Proof.
  intros (pre & post & (-> & Hne & Hocc) & Hmin).
  set (s := String d (name +:+ String d post)).
  assert ((String d (name +:+ String d ""), post, [(1%nat, name)])
            ∈ ways false (source (delimited_by d)) (Str.last None pre) s) as Hin.
  { apply elem_of_ways_delimited. by exists name. }
  destruct (ways false (source (delimited_by d)) (Str.last None pre) s)
    as [|[[m rest] c] tl] eqn:E; [by apply elem_of_nil in Hin |].
  exists (m, rest, c). split.
  - unfold exec. cbn [ignoreCase]. eapply search_first; [done |].
    intros pre' post' Heq Hlen.
    destruct (ways false (source (delimited_by d)) (Str.last None pre') post')
      as [|[[m' rest'] c'] tl'] eqn:E'; [done |].
    assert ((m', rest', c') ∈ ways false (source (delimited_by d)) (Str.last None pre') post')
      as Hin' by (rewrite E'; left).
    apply elem_of_ways_delimited in Hin' as (name' & -> & Hne' & Hocc' & _).
    specialize (Hmin pre' name' rest' (conj Heq (conj Hne' Hocc'))). lia.
  - assert ((m, rest, c) ∈ ways false (source (delimited_by d)) (Str.last None pre) s)
      as Hin' by (rewrite E; left).
    apply elem_of_ways_delimited in Hin' as (name' & Hs & Hne' & Hocc' & -> & ->).
    unfold s in Hs. injection Hs as Hs.
    apply delimited_unique in Hs as [-> _]; done.
Qed.

Lemma exec_delimited_none d q :
  no_delimited d q -> exec (delimited_by d) q = None.
Proof.
  intros Hno. unfold exec. apply search_all_empty. intros pre post ->.
  destruct (ways _ _ _ post) as [|[[m rest] c] tl] eqn:E; [done |].
  assert ((m, rest, c) ∈ ways false (source (delimited_by d)) (Str.last None pre) post)
    as Hin by (cbn [ignoreCase delimited_by] in E; rewrite E; left).
  apply elem_of_ways_delimited in Hin as (name & -> & Hne & Hocc & _).
  by destruct (Hno pre name rest).
Qed.

Lemma exec_delimited_Some d q w :
  exec (delimited_by d) q = Some w ->
  exists name, group 1 w = Some name /\ first_delimited d q name.
Proof.
  unfold exec. cbn [ignoreCase delimited_by source].
  intros (pre & post & -> & [tl Hw] & Hmin)%search_Some.
  destruct w as [[m rest] c].
  assert ((m, rest, c) ∈ ways false (source (delimited_by d)) (Str.last None pre) post)
    as Hin by (cbn [delimited_by source]; rewrite Hw; left).
  apply elem_of_ways_delimited in Hin as (name & -> & Hne & Hocc & -> & ->).
  exists name. split; [done |].
  exists pre, rest. split; [done |].
  intros pre' name' post' (Heq & Hne' & Hocc').
  destruct (decide (String.length pre' < String.length pre)%nat) as [Hlt|]; [| lia].
  specialize (Hmin pre' _ Heq Hlt).
  assert ((String d (name' +:+ String d ""), post', [(1%nat, name')])
            ∈ ways false (source (delimited_by d)) (Str.last None pre')
                (String d (name' +:+ String d post'))) as Hin.
  { apply elem_of_ways_delimited. by exists name'. }
  cbn [delimited_by source] in Hin. rewrite Hmin in Hin. by apply elem_of_nil in Hin.
Qed.

Lemma exec_delimited_None d q :
  exec (delimited_by d) q = None -> no_delimited d q.
Proof.
  unfold exec. cbn [ignoreCase delimited_by source].
  intros Hnone pre name post (-> & Hne & Hocc).
  pose proof (search_None _ _ _ _ Hnone pre _ eq_refl) as Hempty.
  assert ((String d (name +:+ String d ""), post, [(1%nat, name)])
            ∈ ways false (source (delimited_by d)) (Str.last None pre)
                (String d (name +:+ String d post))) as Hin.
  { apply elem_of_ways_delimited. by exists name. }
  cbn [delimited_by source] in Hin. rewrite Hempty in Hin. by apply elem_of_nil in Hin.
Qed.

Lemma elem_of_ways_words i ws prev s m rest c :
  (m, rest, c) ∈ ways i (words ws) prev s <->
  exists kw, kw ∈ ws /\ strip i kw s = Some (m, rest) /\ c = [].
Proof.
  unfold words, alt_of. induction ws as [|kw ws IH]; cbn [fmap list_fmap foldr].
  - rewrite elem_of_ways_Never. split; [done |]. by intros (kw & ?%elem_of_nil & _).
  - rewrite elem_of_ways_Alt, elem_of_ways_Lit, IH. split.
    + intros [[H ->] | (kw' & Hin & H & ->)].
      * exists kw. split; [left | done].
      * exists kw'. split; [by right | done].
    + intros (kw' & [-> | Hin]%elem_of_cons & H & ->); [by left |].
      right. by exists kw'.
Qed.

Lemma test_intro re s pre post w :
  s = pre +:+ post ->
  w ∈ ways (ignoreCase re) (source re) (Str.last None pre) post ->
  test re s = true.
Proof.
  intros -> Hin. unfold test. apply bool_decide_eq_true.
  destruct (exec re (pre +:+ post)) as [w'|] eqn:E; [by exists w' |].
  unfold exec in E. rewrite (search_None _ _ _ _ E pre post eq_refl) in Hin.
  by apply elem_of_nil in Hin.
Qed.

Lemma exec_elem re s w :
  exec re s = Some w ->
  exists pre post,
    s = pre +:+ post /\ w ∈ ways (ignoreCase re) (source re) (Str.last None pre) post.
Proof.
  intros (pre & post & -> & [tl Hw] & _)%search_Some.
  exists pre, post. split; [done |]. rewrite Hw. left.
Qed.

Lemma exec_intro re s pre post w :
  s = pre +:+ post ->
  w ∈ ways (ignoreCase re) (source re) (Str.last None pre) post ->
  is_Some (exec re s).
Proof.
  intros Hs Hin. pose proof (test_intro re s pre post w Hs Hin) as Ht.
  unfold test in Ht. by apply bool_decide_eq_true in Ht.
Qed.

Lemma elem_of_all_chars c : c ∈ Char.all_chars.
Proof.
  unfold Char.all_chars. apply list_elem_of_fmap. exists (nat_of_ascii c).
  split; [by rewrite ascii_nat_embedding |].
  apply elem_of_seq. pose proof (nat_ascii_bounded c). lia.
Qed.

Lemma for_all_chars (P : ascii -> bool) :
  forallb P Char.all_chars = true -> forall c, P c = true.
Proof.
  intros H c. rewrite forallb_forall in H. apply H, list_elem_of_In, elem_of_all_chars.
Qed.

Lemma Canonicalize_toLowerCase c :
  Char.Canonicalize (Char.toLowerCase c) = Char.Canonicalize c.
Proof.
  apply Ascii.eqb_eq.
  revert c. apply for_all_chars. by vm_compute.
Qed.

Lemma Canonicalize_plain k c :
  Char.plain k = true -> Char.Canonicalize k = Char.Canonicalize c -> Char.toLowerCase c = k.
Proof.
  intros Hk Hc. apply Ascii.eqb_eq in Hc. apply Ascii.eqb_eq.
  assert (implb (Char.plain k && Ascii.eqb (Char.Canonicalize k) (Char.Canonicalize c))
                (Ascii.eqb (Char.toLowerCase c) k) = true) as H.
  { clear Hc Hk. revert c. apply for_all_chars. revert k. apply for_all_chars. by vm_compute. }
  by rewrite Hk, Hc in H.
Qed.

Lemma map_Canonicalize_toLowerCase m :
  Str.map Char.Canonicalize (Str.toLowerCase m) = Str.map Char.Canonicalize m.
Proof.
  induction m as [|c m IH]; simpl; [done |].
  by rewrite Canonicalize_toLowerCase, <- IH.
Qed.

Lemma map_Canonicalize_plain kw m :
  Str.all Char.plain kw = true ->
  Str.map Char.Canonicalize kw = Str.map Char.Canonicalize m ->
  Str.toLowerCase m = kw.
Proof.
  revert m. induction kw as [|k kw IH]; intros [|c m] Hp H; try done.
  cbn [Str.all Str.map] in *.
  apply andb_true_iff in Hp as [Hk Hp]. injection H as Hc H.
  unfold Str.toLowerCase. cbn [Str.map]. f_equal; [by apply Canonicalize_plain | by apply IH].
Qed.

End RegexFacts.

(** * Component-name extraction *)

Lemma extractComponentName_single q name :
  first_delimited "'" q name -> extractComponentName q = Some name.
Proof.
  intros (w & Hw & Hg)%RegexFacts.exec_delimited_first.
  unfold extractComponentName. by rewrite Hw.
Qed.

Lemma extractComponentName_double q name :
  no_delimited "'" q -> first_delimited Char.dquote q name ->
  extractComponentName q = Some name.
Proof.
  intros Hno%RegexFacts.exec_delimited_none (w & Hw & Hg)%RegexFacts.exec_delimited_first.
  unfold extractComponentName. by rewrite Hno, Hw.
Qed.

Lemma extractComponentName_asterisk q name :
  no_delimited "'" q -> no_delimited Char.dquote q -> first_delimited "*" q name ->
  extractComponentName q = Some name.
Proof.
  intros Hno1%RegexFacts.exec_delimited_none Hno2%RegexFacts.exec_delimited_none
         (w & Hw & Hg)%RegexFacts.exec_delimited_first.
  unfold extractComponentName. by rewrite Hno1, Hno2, Hw.
Qed.

Lemma extractComponentName_null q :
  no_delimited "'" q -> no_delimited Char.dquote q -> no_delimited "*" q ->
  extractComponentName q = None.
Proof.
  intros Hno1%RegexFacts.exec_delimited_none Hno2%RegexFacts.exec_delimited_none
         Hno3%RegexFacts.exec_delimited_none.
  unfold extractComponentName. by rewrite Hno1, Hno2, Hno3.
Qed.

(** A name that [extractComponentName] returns is never empty. *)
Lemma extractComponentName_truthy q name :
  extractComponentName q = Some name -> truthy_text (Some name) = true.
Proof.
  unfold extractComponentName. intros H.
  assert (exists d, first_delimited d q name) as (d & pre & post & (_ & Hne & _) & _).
  { destruct (Regex.exec (delimited_by "'") q) as [w|] eqn:E1.
    { apply RegexFacts.exec_delimited_Some in E1 as (n & Hg & Hf). exists "'"%char. congruence. }
    destruct (Regex.exec (delimited_by Char.dquote) q) as [w|] eqn:E2.
    { apply RegexFacts.exec_delimited_Some in E2 as (n & Hg & Hf). exists Char.dquote. congruence. }
    destruct (Regex.exec (delimited_by "*") q) as [w|] eqn:E3; [| done].
    apply RegexFacts.exec_delimited_Some in E3 as (n & Hg & Hf). exists "*"%char. congruence. }
  simpl. destruct name; [done | done].
Qed.

(** C4. [extractComponentName] returns the first single-quoted text if
    there is one, otherwise the first double-quoted text if there is one,
    otherwise the first asterisk-delimited text if there is one, otherwise
    null; on [inspect 'ABC_1'] it returns [ABC_1]. *)
Theorem extractComponentName_precedence (q : string) :
  (forall name, first_delimited "'" q name -> extractComponentName q = Some name) /\
  (forall name, no_delimited "'" q -> first_delimited Char.dquote q name ->
                extractComponentName q = Some name) /\
  (forall name, no_delimited "'" q -> no_delimited Char.dquote q ->
                first_delimited "*" q name -> extractComponentName q = Some name) /\
  (no_delimited "'" q -> no_delimited Char.dquote q -> no_delimited "*" q ->
   extractComponentName q = None) /\
  extractComponentName "inspect 'ABC_1'" = Some "ABC_1".
Proof.
  split; [apply extractComponentName_single |].
  split; [apply extractComponentName_double |].
  split; [apply extractComponentName_asterisk |].
  split; [apply extractComponentName_null | by vm_compute].
Qed.

(** A question with an asterisk-delimited name before a quoted one: the
    quoted name is returned. *)
Lemma extractComponentName_precedence_witness :
  first_delimited "'" "compare *Marie* with 'PCN_PRT_25FT'" "PCN_PRT_25FT" /\
  extractComponentName "compare *Marie* with 'PCN_PRT_25FT'" = Some "PCN_PRT_25FT".
Proof.
  assert (first_delimited "'" "compare *Marie* with 'PCN_PRT_25FT'" "PCN_PRT_25FT") as H.
  { destruct (RegexFacts.exec_delimited_Some "'" "compare *Marie* with 'PCN_PRT_25FT'"
                ("'PCN_PRT_25FT'", "", [(1%nat, "PCN_PRT_25FT")]))
      as (name & Hg & Hf); [by vm_compute |].
    injection Hg as <-. exact Hf. }
  split; [exact H |].
  exact (proj1 (extractComponentName_precedence "compare *Marie* with 'PCN_PRT_25FT'") _ H).
Defined.

(** * Keywords *)

Lemma toLowerCase_app a b :
  Str.toLowerCase (a +:+ b) = Str.toLowerCase a +:+ Str.toLowerCase b.
Proof. apply StrFacts.map_app. Qed.

(** A question that contains a keyword passes the test of the pattern of
    keywords on its lower-case form. *)
Lemma keyword_test ws q kw :
  kw ∈ ws -> contains_ci q kw ->
  Regex.test (insensitive (words ws)) (Str.toLowerCase q) = true.
Proof.
  intros Hin (pre & m & post & -> & Hm).
  rewrite !toLowerCase_app, Hm.
  apply (RegexFacts.test_intro _ _ (Str.toLowerCase pre) (kw +:+ Str.toLowerCase post)
           (kw, Str.toLowerCase post, [])); [done |].
  cbn [insensitive source ignoreCase].
  apply RegexFacts.elem_of_ways_words. exists kw. split; [done |]. split; [| done].
  by apply RegexFacts.strip_insensitive.
Qed.

(** * The agent *)

(** C10. A question that contains one of the keywords component, part,
    inspect, defect, status, decision or image, in any case, and no quoted
    or asterisk-delimited text, is answered by the fixed guidance message,
    and no call of the store or of the language model is made: the log of
    external calls is unchanged. *)
Theorem answer_guidance_without_calls (R : Runtime) (w : World R) (log : list Event)
    (q kw : string) :
  kw ∈ component_keywords -> contains_ci q kw ->
  no_delimited "'" q -> no_delimited Char.dquote q -> no_delimited "*" q ->
  answer R q w log = (Return guidance, log).
Proof.
  intros Hkw Hci Hn1 Hn2 Hn3.
  unfold answer, try_catch.
  rewrite (extractComponentName_null q Hn1 Hn2 Hn3).
  unfold re_componentKeywords. rewrite (keyword_test _ q kw Hkw Hci).
  reflexivity.
Qed.

Lemma answer_guidance_witness :
  answer sampleRuntime "which batches had a defect this week?" emptyStore []
  = (Return guidance, []).
Proof.
  apply (answer_guidance_without_calls sampleRuntime emptyStore []
           "which batches had a defect this week?" "defect").
  - unfold component_keywords. set_solver.
  - by exists "which batches had a ", "defect", " this week?".
  - apply RegexFacts.exec_delimited_None. by vm_compute.
  - apply RegexFacts.exec_delimited_None. by vm_compute.
  - apply RegexFacts.exec_delimited_None. by vm_compute.
Defined.

(** C5. The function returned by [initializeProductionAgent] returns a
    text for every question and every behaviour of the store and of the
    language model, and never throws; [initializeProductionAgent] itself
    either returns that function or throws one of its two start-up
    errors. *)
Theorem answer_never_throws :
  (forall (R : Runtime) (w : World R) (log : list Event) (question : string),
      exists text log', answer R question w log = (Return text, log')) /\
  (forall (R : Runtime) (w : World R) (log : list Event),
      match (initializeProductionAgent R w log).1 with
      | Return agent => agent = answer R
      | Throw message =>
          message = "MongoDB connection failed" \/
          message = "Gemini API test failed. Please check your API key."
      end).
Proof.
  split.
  - intros R w log question. unfold answer, try_catch.
    match goal with
    | |- exists _ _, match ?c with _ => _ end = _ => destruct c as [[text | message] log']
    end; [by eauto |].
    destruct (_ || _); unfold ret; eauto.
  - intros R w log. unfold initializeProductionAgent, bind.
    match goal with
    | |- context [try_catch ?b ?h w log] =>
        assert (exists log', try_catch b h w log = (Return (), log')
                             \/ try_catch b h w log = (Throw "MongoDB connection failed", log'))
          as (log' & [-> | ->])
    end.
    + unfold try_catch.
      match goal with
      | |- exists _, match ?c with _ => _ end = _ \/ _ => destruct c as [[[] | message] log']
      end; unfold throw; eauto.
    + unfold testGeminiAPI, try_catch, bind, call, ret, throw.
      destruct (generateContent w _); simpl; auto.
    + simpl. auto.
Qed.

(** * Routing to the aggregation path *)

Ltac log_norm := repeat rewrite <- List.app_assoc; cbn [app].

Lemma getDefectInfo_returns R (w : World R) log :
  exists defectMap,
    getDefectInfo R w log = (Return defectMap, log ++ [Find "Defects" no_conditions None]).
Proof.
  unfold getDefectInfo, try_catch, bind, call, ret.
  destruct (find_Defects w); eauto.
Qed.

(** A question without a component name that asks for an aggregation or
    a listing: the calls made, in order. *)
Lemma queryMongoDB_aggregation R (w : World R) log q uri :
  MONGODB_URI w = Some uri -> truthy_text (Some uri) = true ->
  newMongoClient w uri = Return () -> connect w = Return () ->
  extractComponentName q = None ->
  needsAggregation (analyzeQuery q) || isComponentList (analyzeQuery q) = true ->
  exists outcome,
    queryMongoDB R q w log
    = (outcome,
       log ++ [NewMongoClient uri; Connect; Find "Defects" no_conditions None;
               Aggregate "Reports" (choosePipeline (analyzeQuery q)); Close]).
Proof.
  intros Huri Ht Hnew Hcon Hname Hagg.
  unfold queryMongoDB, bind, read. rewrite Huri, Ht. cbn [negb from_option id].
  unfold call at 1. rewrite Hnew.
  unfold try_finally, try_catch, queryMongoDB_connected, bind.
  unfold call at 1. rewrite Hcon, Hname. cbn [truthy_text].
  destruct (getDefectInfo_returns R w ((log ++ [NewMongoClient uri]) ++ [Connect]))
    as [defectMap ->].
  rewrite Hagg. unfold handleAggregationQuery, call.
  destruct (aggregate_Reports w _) as [results | message].
  - destruct (length (enhance defectMap <$> results) =? 0)%nat; unfold ret;
      destruct (close w); log_norm; eauto.
  - unfold ret. destruct (close w); log_norm; eauto.
Qed.

(** C6. When the intent has [isNGQuery] set, the pipeline chosen is: match
    [ng_parts] existing and greater than 0, sort by [ng_parts] descending,
    limit 10, whatever the other flags; a question routed to the
    aggregation path runs exactly this pipeline on the reports; and the
    question "show batches with most ng parts" is such a question. *)
Theorem ng_pipeline_has_priority :
  (forall qa : QueryAnalysis, isNGQuery qa = true -> choosePipeline qa = ng_pipeline) /\
  (forall (R : Runtime) (w : World R) (log : list Event) (q uri : string),
      MONGODB_URI w = Some uri -> truthy_text (Some uri) = true ->
      newMongoClient w uri = Return () -> connect w = Return () ->
      extractComponentName q = None ->
      needsAggregation (analyzeQuery q) || isComponentList (analyzeQuery q) = true ->
      isNGQuery (analyzeQuery q) = true ->
      exists outcome,
        queryMongoDB R q w log
        = (outcome,
           log ++ [NewMongoClient uri; Connect; Find "Defects" no_conditions None;
                   Aggregate "Reports" ng_pipeline; Close])) /\
  (isNGQuery (analyzeQuery "show batches with most ng parts") = true /\
   needsAggregation (analyzeQuery "show batches with most ng parts") = true /\
   extractComponentName "show batches with most ng parts" = None).
Proof.
  assert (forall qa, isNGQuery qa = true -> choosePipeline qa = ng_pipeline) as Hng.
  { intros qa H. unfold choosePipeline. by rewrite H. }
  split; [exact Hng |]. split; [| by vm_compute].
  intros R w log q uri Huri Ht Hnew Hcon Hname Hagg Hq.
  rewrite <- (Hng _ Hq). by apply queryMongoDB_aggregation.
Qed.

Lemma ng_pipeline_witness :
  exists outcome,
    queryMongoDB sampleRuntime "show batches with most ng parts" emptyStore []
    = (outcome,
       [NewMongoClient "mongodb://localhost:27017"; Connect;
        Find "Defects" no_conditions None; Aggregate "Reports" ng_pipeline; Close]).
Proof.
  apply (proj1 (proj2 ng_pipeline_has_priority) sampleRuntime emptyStore []
           "show batches with most ng parts" "mongodb://localhost:27017");
    by vm_compute.
Defined.

(** Through the entry point, the question of the example does not reach
    the store: it contains the keyword "part" and names no component, so
    the guard of [answer] returns the guidance message. *)
Example ng_question_through_the_entry_point :
  answer sampleRuntime "show batches with most ng parts" emptyStore []
  = (Return guidance, []).
Proof. by vm_compute. Qed.

(** * Messages of the component path *)

Lemma queryComponentDetails_empty R (w : World R) log componentName :
  find_component w componentName = Return [] ->
  queryComponentDetails R componentName w log
  = (Return (empty_collection_message componentName),
     log ++ [Find componentName no_conditions (Some 20%nat)]).
Proof.
  intros H. unfold queryComponentDetails, try_catch, bind, call. by rewrite H.
Qed.

Lemma queryComponentDetails_throw R (w : World R) log componentName message :
  find_component w componentName = Throw message ->
  queryComponentDetails R componentName w log
  = (Return (if Str.includes message "collection name must be a string"
             then invalid_name_message componentName
             else if Str.includes message "ns not found" || Str.includes message "Collection"
                  then not_found_message componentName
                  else "Error querying component '" +:+ componentName +:+ "': " +:+ message),
     log ++ [Find componentName no_conditions (Some 20%nat)]).
Proof.
  intros H. unfold queryComponentDetails, try_catch, bind, call. rewrite H.
  destruct (Str.includes message "collection name must be a string"); [done |].
  by destruct (_ || _).
Qed.

(** C9. The code does not do what the claim says.  The driver answers a
    find on a name that is no collection of the database by the empty
    result, not by an error, and [queryComponentDetails] only looks at the
    number of documents found: for a name that resolves to no collection
    it returns the very message of a collection that exists and is empty,
    and not the message that its handler keeps for a name that is not
    found. *)
Theorem missing_collection_reported_as_empty (collections : gmap string (list unit))
    (componentName : string) (log : list Event) :
  collections !! componentName = None ->
  let missing := queryComponentDetails sampleRuntime componentName (database collections) log in
  let empty :=
    queryComponentDetails sampleRuntime componentName
      (database (<[componentName := []]> collections)) log in
  missing = empty /\
  missing.1 = Return (empty_collection_message componentName) /\
  missing.1 <> Return (not_found_message componentName).
Proof.
  intros Hmissing missing empty.
  assert (missing = (Return (empty_collection_message componentName),
                     log ++ [Find componentName no_conditions (Some 20%nat)])) as ->.
  { apply queryComponentDetails_empty. cbn. by rewrite Hmissing. }
  assert (empty = (Return (empty_collection_message componentName),
                   log ++ [Find componentName no_conditions (Some 20%nat)])) as ->.
  { apply queryComponentDetails_empty. cbn. by rewrite lookup_insert_eq. }
  repeat split. cbn.
  unfold empty_collection_message, not_found_message.
  rewrite ?StrFacts.app_cons. congruence.
Qed.

Lemma missing_collection_reported_as_empty_witness :
  (queryComponentDetails sampleRuntime "NoSuchPart" (database {["ABC_1" := []]}) []).1
  = Return "No data found in collection 'NoSuchPart'. The collection exists but is empty.".
Proof.
  destruct (missing_collection_reported_as_empty {["ABC_1" := []]} "NoSuchPart" [])
    as (_ & H & _); [by vm_compute |].
  exact H.
Defined.

(** * Empty results *)

(** C2, as stated, fails on the component path: with a store whose
    collection [ABC_1] is empty, the question [inspect 'ABC_1'] is
    answered by the message of the empty collection, not by the sentence
    about production reports. *)
Lemma empty_component_collection_counterexample :
  extractComponentName "inspect 'ABC_1'" = Some "ABC_1" /\
  find_component emptyStore "ABC_1" = Return [] /\
  (queryMongoDB sampleRuntime "inspect 'ABC_1'" emptyStore []).1
  = Return "No data found in collection 'ABC_1'. The collection exists but is empty." /\
  (queryMongoDB sampleRuntime "inspect 'ABC_1'" emptyStore []).1 <> Return no_reports.
Proof. by vm_compute. Qed.

(** C2, amended. With the store reachable: when the question names no
    component and the find or the aggregation on the reports yields no
    record, [queryMongoDB] returns the sentence "No production reports
    found matching your query."; when the question names a component whose
    collection yields no record, it returns the message of the empty
    collection. *)
Theorem empty_result_messages (R : Runtime) (w : World R) (log : list Event)
    (q uri : string) :
  MONGODB_URI w = Some uri -> truthy_text (Some uri) = true ->
  newMongoClient w uri = Return () -> connect w = Return () -> close w = Return () ->
  (extractComponentName q = None -> reports_query_result R w q = Return [] ->
   (queryMongoDB R q w log).1 = Return no_reports) /\
  (forall name, extractComponentName q = Some name -> find_component w name = Return [] ->
   (queryMongoDB R q w log).1 = Return (empty_collection_message name)).
Proof.
  intros Huri Ht Hnew Hcon Hclose.
  split; [intros Hname Hres | intros name Hname Hres];
    unfold queryMongoDB, bind, read; rewrite Huri, Ht; cbn [negb from_option id];
    unfold call at 1; rewrite Hnew;
    unfold try_finally, try_catch, queryMongoDB_connected, bind;
    unfold call at 1; rewrite Hcon.
  - rewrite Hname. cbn [truthy_text].
    destruct (getDefectInfo_returns R w ((log ++ [NewMongoClient uri]) ++ [Connect]))
      as [defectMap ->].
    unfold reports_query_result in Hres.
    destruct (needsAggregation (analyzeQuery q) || isComponentList (analyzeQuery q)).
    + unfold handleAggregationQuery, call. rewrite Hres. cbn. by rewrite Hclose.
    + unfold read, call. rewrite Hres. cbn. by rewrite Hclose.
  - rewrite Hname, (extractComponentName_truthy q name Hname).
    cbn [from_option id].
    rewrite (queryComponentDetails_empty R w _ name Hres).
    unfold call. by rewrite Hclose.
Qed.

Lemma empty_result_messages_witness :
  (queryMongoDB sampleRuntime "show reports of lot 77 for yesterday" emptyStore []).1
  = Return no_reports /\
  (queryMongoDB sampleRuntime "inspect 'ABC_1'" emptyStore []).1
  = Return (empty_collection_message "ABC_1").
Proof.
  split.
  - apply (proj1 (empty_result_messages sampleRuntime emptyStore []
                    "show reports of lot 77 for yesterday" "mongodb://localhost:27017"
                    eq_refl eq_refl eq_refl eq_refl eq_refl)); by vm_compute.
  - apply (proj2 (empty_result_messages sampleRuntime emptyStore []
                    "inspect 'ABC_1'" "mongodb://localhost:27017"
                    eq_refl eq_refl eq_refl eq_refl eq_refl)); by vm_compute.
Defined.

(** * Relative and absolute dates *)

Lemma relative_periods_plain period :
  period ∈ relative_periods ->
  Str.all Char.plain period = true /\ Str.toLowerCase period = period.
Proof.
  unfold relative_periods. rewrite !elem_of_cons, elem_of_nil.
  intros [-> | [-> | [-> | [-> | [-> | [-> | []]]]]]]; by vm_compute.
Qed.

(** Every relative period is a key of the table of [getDateFilter]. *)
Lemma getDateFilter_period now text period :
  period ∈ relative_periods -> Str.toLowerCase text = period ->
  exists range, getDateFilter now text = Some range /\ getDateFilter now period = Some range.
Proof.
  intros Hin Htext. destruct (relative_periods_plain period Hin) as [_ Hlow].
  unfold getDateFilter. rewrite Htext, Hlow.
  revert Hin. unfold relative_periods. rewrite !elem_of_cons, elem_of_nil.
  intros [-> | [-> | [-> | [-> | [-> | [-> | []]]]]]]; eexists; split; reflexivity.
Qed.

(** What [match] with the pattern of the relative periods returns. *)
Lemma exec_relativeDate q w :
  Regex.exec re_relativeDate q = Some w ->
  exists text period,
    Regex.group 1 w = Some text /\ Str.toLowerCase text = period /\
    period ∈ relative_periods /\ contains_ci q period.
Proof.
  intros (pre & post & -> & Hin)%RegexFacts.exec_elem.
  destruct w as [[m rest] c]. cbn [re_relativeDate insensitive source ignoreCase] in Hin.
  apply RegexFacts.elem_of_ways_Group in Hin as (c' & Hin & ->).
  apply RegexFacts.elem_of_ways_words in Hin as (kw & Hkw & Hstrip & ->).
  apply RegexFacts.strip_insensitive in Hstrip as [-> Hcanon].
  destruct (relative_periods_plain kw Hkw) as [Hplain _].
  pose proof (RegexFacts.map_Canonicalize_plain kw m Hplain Hcanon) as Hlow.
  exists m, kw. repeat split; try done. by exists pre, m, rest.
Qed.

Lemma exec_relativeDate_found q kw :
  kw ∈ relative_periods -> contains_ci q kw -> is_Some (Regex.exec re_relativeDate q).
Proof.
  intros Hkw (pre & m & post & -> & Hm).
  apply (RegexFacts.exec_intro _ _ pre (m +:+ post) (m, post, [(1%nat, m)])); [done |].
  cbn [re_relativeDate insensitive source ignoreCase].
  apply RegexFacts.elem_of_ways_Group. exists []. split; [| done].
  apply RegexFacts.elem_of_ways_words. exists kw. split; [done |]. split; [| done].
  apply RegexFacts.strip_insensitive. split; [done |].
  by rewrite <- Hm, RegexFacts.map_Canonicalize_toLowerCase.
Qed.

(** C3. For a question that contains a relative period and an absolute
    digit-pattern date, in whatever order, the date condition that
    [parseQuery] builds is the range of a relative period of the question;
    the absolute date adds nothing.  The predicate returned carries this
    date condition, except for a general question or a component listing,
    for which [parseQuery] returns no condition at all. *)
Theorem relative_date_wins (Date_parse : string -> option Z) (now : Z) (q kw : string) :
  kw ∈ relative_periods -> contains_ci q kw ->
  is_Some (Regex.exec re_absoluteDate q) ->
  exists period range,
    period ∈ relative_periods /\ contains_ci q period /\
    getDateFilter now period = Some range /\
    date (buildConditions Date_parse now q) = Some range /\
    date (parseQuery Date_parse now q)
    = if isGeneralQuery (analyzeQuery q) || isComponentList (analyzeQuery q)
      then None else Some range.
Proof.
  intros Hkw Hci _.
  destruct (exec_relativeDate_found q kw Hkw Hci) as [w Hw].
  destruct (exec_relativeDate q w Hw) as (text & period & Hg & Hlow & Hin & Hcontains).
  destruct (getDateFilter_period now text period Hin Hlow) as (range & Hrange & Hperiod).
  exists period, range.
  assert (date (buildConditions Date_parse now q) = Some range) as Hdate.
  { unfold buildConditions. cbn [date]. rewrite Hw, Hg. exact Hrange. }
  repeat split; try done.
  unfold parseQuery. by destruct (_ || _).
Qed.

(** For a component listing the conditions built, the date among them,
    are given up. *)
Example parseQuery_listing_returns_no_condition :
  date (buildConditions (fun _ => None) 1793574000123 "list components today 24_02_2025")
  = getDateFilter 1793574000123 "today" /\
  parseQuery (fun _ => None) 1793574000123 "list components today 24_02_2025"
  = no_conditions.
Proof. by vm_compute. Qed.

Lemma relative_date_wins_witness :
  exists period range,
    period ∈ relative_periods /\
    contains_ci "reports of batch B_24_02_2025, 24_02_2025 or Today" period /\
    getDateFilter 1793574000123 period = Some range /\
    date (buildConditions (fun _ => Some 0) 1793574000123
            "reports of batch B_24_02_2025, 24_02_2025 or Today") = Some range /\
    date (parseQuery (fun _ => Some 0) 1793574000123
            "reports of batch B_24_02_2025, 24_02_2025 or Today")
    = if isGeneralQuery (analyzeQuery "reports of batch B_24_02_2025, 24_02_2025 or Today")
         || isComponentList (analyzeQuery "reports of batch B_24_02_2025, 24_02_2025 or Today")
      then None else Some range.
Proof.
  apply (relative_date_wins (fun _ => Some 0) 1793574000123
           "reports of batch B_24_02_2025, 24_02_2025 or Today" "today").
  - unfold relative_periods. set_solver.
  - by exists "reports of batch B_24_02_2025, 24_02_2025 or ", "Today", "".
  - vm_compute. eexists. reflexivity.
Defined.

(** * Defect occurrences *)

Lemma forEach_from_app {A B} (f : B -> A -> nat -> B) l1 l2 k acc :
  forEach_from f (l1 ++ l2) k acc
  = forEach_from f l2 (k + length l1) (forEach_from f l1 k acc).
Proof.
  revert k acc. induction l1 as [|x l1 IH]; intros k acc; simpl.
  - by rewrite Nat.add_0_r.
  - rewrite IH. f_equal. lia.
Qed.

Lemma forEach_snoc {A B} (f : B -> A -> nat -> B) l x acc :
  forEach f (l ++ [x]) acc = f (forEach f l acc) x (length l).
Proof. unfold forEach. by rewrite forEach_from_app. Qed.

Lemma lookup_assign {V} (key k : string) (value : V) (o : gmap string V) :
  assign key value o !! k
  = if decide (key = k /\ key <> "__proto__") then Some value else o !! k.
Proof.
  unfold assign. destruct (String.eqb_spec key "__proto__") as [-> | Hne].
  - by destruct (decide _) as [[_ ?] |].
  - destruct (decide (key = k)) as [-> | Hk].
    + rewrite lookup_insert_eq. by destruct (decide _) as [| []].
    + rewrite lookup_insert_ne by done. by destruct (decide _) as [[] |].
Qed.

Lemma lookup_assign_proto {V} (key : string) (value : V) (o : gmap string V) :
  o !! "__proto__" = None -> assign key value o !! "__proto__" = None.
Proof.
  intros Ho. rewrite lookup_assign. by destruct (decide _) as [[-> ?] |].
Qed.

Lemma mapDefectOccurrences_snoc counts x defectMap defectType :
  mapDefectOccurrences (OccArray (counts ++ [x])) defectMap defectType
  = if 0 <? x
    then assign (defect_label defectMap (length counts))
           (defect_entry defectMap defectType (length counts) x)
           (mapDefectOccurrences (OccArray counts) defectMap defectType)
    else mapDefectOccurrences (OccArray counts) defectMap defectType.
Proof.
  unfold mapDefectOccurrences. rewrite forEach_snoc.
  unfold defect_label, defect_entry.
  destruct (0 <? x); [| done].
  by destruct (defectMap !! ToString (JNum (Z.of_nat (length counts) + 1))).
Qed.

Lemma positive_at_snoc counts x i c :
  positive_at (counts ++ [x]) i c <->
  positive_at counts i c \/ (i = length counts /\ c = x /\ 0 < x).
Proof.
  unfold positive_at. split.
  - intros [Hl Hc]. apply lookup_app_Some in Hl as [Hl | [Hlen Hl]]; [by left |].
    right. apply list_lookup_singleton_Some in Hl as [Hi ->].
    repeat split; [lia | lia].
  - intros [[Hl Hc] | (-> & -> & Hx)].
    + split; [| done]. by apply lookup_app_l_Some.
    + split; [| done]. rewrite lookup_app_r by lia. by rewrite Nat.sub_diag.
Qed.

Lemma positive_at_length counts i c : positive_at counts i c -> (i < length counts)%nat.
Proof. intros [Hl _]. by apply lookup_lt_Some in Hl. Qed.

(** The mapping never has an own property named __proto__. *)
Lemma mapDefectOccurrences_proto occurrences defectMap defectType :
  mapDefectOccurrences occurrences defectMap defectType !! "__proto__" = None.
Proof.
  destruct occurrences as [| counts |]; [done | | done].
  induction counts as [|x counts IH] using rev_ind; [done |].
  rewrite mapDefectOccurrences_snoc. destruct (0 <? x); [| done].
  by apply lookup_assign_proto.
Qed.

(** The entries of the mapping: a key other than __proto__ holds the
    entry of the last index with a positive count whose label is the
    key. *)
Lemma mapDefectOccurrences_lookup counts defectMap defectType key e :
  mapDefectOccurrences (OccArray counts) defectMap defectType !! key = Some e <->
  key <> "__proto__" /\
  exists i c,
    positive_at counts i c /\ key = defect_label defectMap i /\
    e = defect_entry defectMap defectType i c /\
    forall j cj, (i < j)%nat -> positive_at counts j cj -> defect_label defectMap j <> key.
Proof.
  destruct (decide (key = "__proto__")) as [-> | Hkey].
  { rewrite mapDefectOccurrences_proto. split; [done | by intros [? _]]. }
  split.
  - intros H. split; [done |]. revert e H.
    induction counts as [|x counts IH] using rev_ind; intros e H; [done |].
    rewrite mapDefectOccurrences_snoc in H.
    assert (forall e,
               mapDefectOccurrences (OccArray counts) defectMap defectType !! key = Some e ->
               defect_label defectMap (length counts) <> key \/ ~ 0 < x ->
               exists i c,
                 positive_at (counts ++ [x]) i c /\ key = defect_label defectMap i /\
                 e = defect_entry defectMap defectType i c /\
                 forall j cj, (i < j)%nat -> positive_at (counts ++ [x]) j cj ->
                              defect_label defectMap j <> key) as Hold.
    { intros e' He' Hlast. destruct (IH e' He') as (i & c & Hpos & -> & -> & Hl).
      exists i, c. split; [apply positive_at_snoc; by left |]. repeat split.
      intros j cj Hj [Hpos' | (-> & -> & Hx)]%positive_at_snoc; [by eapply Hl |].
      by destruct Hlast. }
    destruct (Z.ltb_spec 0 x) as [Hx | Hx]; [| apply Hold; [done | right; lia]].
    rewrite lookup_assign in H. destruct (decide _) as [[Hlabel Hproto] | Hno].
    + injection H as <-. exists (length counts), x.
      split; [apply positive_at_snoc; by right |]. repeat split; [done |].
      intros j cj Hj Hpos%positive_at_length. rewrite length_app in Hpos. simpl in Hpos. lia.
    + apply Hold; [done |]. left. intros Hlabel. apply Hno. split; [done |]. by rewrite Hlabel.
  - intros (_ & i & c & Hpos & Hlabel & -> & Hlast). revert i c Hpos Hlabel Hlast.
    induction counts as [|x counts IH] using rev_ind; intros i c Hpos Hlabel Hlast.
    { by destruct Hpos as [? _]. }
    rewrite mapDefectOccurrences_snoc.
    apply positive_at_snoc in Hpos as [Hpos | (-> & -> & Hx)].
    + assert (mapDefectOccurrences (OccArray counts) defectMap defectType !! key
              = Some (defect_entry defectMap defectType i c)) as Hprev.
      { apply (IH i c Hpos Hlabel). intros j cj Hj Hpos'. apply (Hlast j cj Hj).
        apply positive_at_snoc. by left. }
      destruct (Z.ltb_spec 0 x) as [Hx | Hx]; [| done].
      rewrite lookup_assign. destruct (decide _) as [[Hl _] | _]; [| done].
      exfalso. apply (Hlast (length counts) x); [by eapply positive_at_length | | done].
      apply positive_at_snoc. by right.
    + assert ((0 <? x) = true) as -> by by apply Z.ltb_lt.
      rewrite lookup_assign. destruct (decide _) as [| Hno]; [done |].
      destruct Hno. split; [done |]. by rewrite <- Hlabel.
Qed.

(** C1, as stated, fails when two defects of the catalog have the same
    class: with counts 3 and 5 for defects 1 and 2, both of class Scratch,
    the mapping has the single entry of count 5, and the count 3 of index 0
    appears in no entry. *)
Lemma duplicate_class_counterexample :
  let defectMap := buildDefectMap twoScratches in
  let mapped := mapDefectOccurrences (OccArray [3; 5]) defectMap (JStr "object_detection") in
  positive_at [3; 5] 0 3 /\
  mapped !! defect_label defectMap 0
  <> Some (defect_entry defectMap (JStr "object_detection") 0 3) /\
  forall key e, mapped !! key = Some e -> MappedDefect.count e = 5.
Proof.
  intros defectMap mapped. split; [by split |]. split.
  - by vm_compute.
  - intros key e (_ & i & c & [Hl Hc] & -> & -> & Hlast)%mapDefectOccurrences_lookup.
    destruct i as [|[|i]]; simpl in Hl.
    + exfalso. apply (Hlast 1%nat 5); [lia | by split |]. by vm_compute.
    + by injection Hl as <-.
    + done.
Qed.

(** C1, amended. When the indices with a positive count have pairwise
    different labels, none of which is the text __proto__, the mapping
    holds, for every index [i] with a positive count and for nothing else,
    the entry of defect [i + 1] with that count; a defect that the catalog
    does not have is emitted under the label Unknown_Defect_ followed by
    [i + 1], with the description "Unknown defect with ID" followed by
    [i + 1]. *)
Theorem mapDefectOccurrences_entries (counts : list Z)
    (defectMap : gmap string DefectInfo.t) (defectType : JsVal) :
  labels_distinct defectMap counts ->
  labels_assignable defectMap counts ->
  (forall key e,
      mapDefectOccurrences (OccArray counts) defectMap defectType !! key = Some e <->
      exists i c,
        positive_at counts i c /\ key = defect_label defectMap i /\
        e = defect_entry defectMap defectType i c) /\
  (forall i c,
      positive_at counts i c ->
      let defectId := ToString (JNum (Z.of_nat i + 1)) in
      MappedDefect.count (defect_entry defectMap defectType i c) = c /\
      (defectMap !! defectId = None ->
       defect_label defectMap i = "Unknown_Defect_" +:+ defectId /\
       MappedDefect.description (defect_entry defectMap defectType i c)
       = JStr ("Unknown defect with ID " +:+ defectId))).
Proof.
  intros Hdistinct Hassignable. split.
  - intros key e. rewrite mapDefectOccurrences_lookup. split.
    + intros (_ & i & c & Hpos & Hkey & He & _). by exists i, c.
    + intros (i & c & Hpos & -> & ->). split; [by eapply Hassignable |].
      exists i, c. split; [done |]. repeat split.
      intros j cj Hj Hpos' Heq. specialize (Hdistinct j i cj c Hpos' Hpos Heq). lia.
  - intros i c Hpos defectId. unfold defect_entry, defect_label. fold defectId.
    destruct (defectMap !! defectId); split; try done.
Qed.

Lemma mapDefectOccurrences_entries_witness :
  labels_distinct (buildDefectMap twoScratches) [3; 0; 5] /\
  mapDefectOccurrences (OccArray [3; 0; 5]) (buildDefectMap twoScratches) (JStr "ocr")
    !! "Unknown_Defect_3"
  = Some (defect_entry (buildDefectMap twoScratches) (JStr "ocr") 2 5).
Proof.
  assert (labels_distinct (buildDefectMap twoScratches) [3; 0; 5]) as Hdistinct.
  { intros i j ci cj [Hi Hci] [Hj Hcj] Heq.
    destruct i as [|[|[|i]]]; simpl in Hi; try done;
      destruct j as [|[|[|j]]]; simpl in Hj; try done;
      injection Hi as <-; injection Hj as <-; try lia; by vm_compute in Heq. }
  assert (labels_assignable (buildDefectMap twoScratches) [3; 0; 5]) as Hassignable.
  { intros i c [Hi Hc].
    destruct i as [|[|[|i]]]; simpl in Hi; try done; by vm_compute. }
  split; [exact Hdistinct |].
  apply (proj1 (mapDefectOccurrences_entries [3; 0; 5] (buildDefectMap twoScratches)
                  (JStr "ocr") Hdistinct Hassignable)).
  exists 2%nat, 5. by vm_compute.
Defined.

(** The case that the amended claim leaves out: a defect whose class
    is the text __proto__ leaves no entry, whatever its count. *)
Example proto_class_leaves_no_entry :
  labels_distinct (buildDefectMap protoClass) [4] /\
  mapDefectOccurrences (OccArray [4]) (buildDefectMap protoClass) (JStr "ocr") = ∅.
Proof.
  split; [| by vm_compute].
  intros i j ci cj [Hi _] [Hj _] _.
  destruct i as [|i]; [| done]. by destruct j as [|j].
Qed.

(** * Facts about dates *)

Module DateFacts.
Import Date Calendar.

Ltac div_lia := Z.to_euclidean_division_equations; lia.



Lemma DayFromYear_mono y y' : y <= y' -> DayFromYear y <= DayFromYear y'.
Proof. unfold DayFromYear. div_lia. Qed.

Lemma YearFromDay_spec d :
  DayFromYear (YearFromDay d) <= d < DayFromYear (YearFromDay d + 1).
Proof. unfold YearFromDay, DayFromYear. cbv zeta. div_lia. Qed.





Lemma MonthFromTime_bounds t : 0 <= MonthFromTime t <= 11.
Proof. unfold MonthFromTime. repeat case_match; lia. Qed.

Lemma MakeDay_in_year y m date :
  0 <= m <= 11 -> MakeDay y m date = DayFromYear y + DaysBeforeMonth (leap y) m + date - 1.
Proof.
  intros Hm. unfold MakeDay. cbv zeta.
  assert (m / 12 = 0) as -> by div_lia. assert (m mod 12 = m) as -> by div_lia.
  by rewrite Z.add_0_r.
Qed.

(** Setting the day of the month moves the day number by the difference. *)
Lemma MakeDay_of_time t date :
  MakeDay (YearFromTime t) (MonthFromTime t) date = Day t - DateFromTime t + date.
Proof.
  rewrite MakeDay_in_year by apply MonthFromTime_bounds.
  unfold DateFromTime, DayWithinYear, InLeapYear, leap. lia.
Qed.


Lemma DayFromYear_epoch : DayFromYear 1970 = 0.
Proof. reflexivity. Qed.

Lemma YearFromTime_epoch now : 0 <= now -> 1970 <= YearFromTime now.
Proof.
  intros Hnow. unfold YearFromTime.
  assert (0 <= Day now) as HD by (unfold Day, msPerDay; div_lia).
  pose proof (YearFromDay_spec (Day now)) as HY.
  destruct (Z.le_gt_cases 1970 (YearFromDay (Day now))) as [|Hlt]; [done |].
  pose proof (DayFromYear_mono (YearFromDay (Day now) + 1) 1970).
  rewrite DayFromYear_epoch in *. lia.
Qed.





Lemma make_plain y m d h mi s ms :
  99 < y -> make y m d h mi s ms = MakeDate (MakeDay y m d) (MakeTime h mi s ms).
Proof.
  intros Hy. unfold make.
  by assert ((0 <=? y) && (y <=? 99) = false) as -> by (apply andb_false_iff; right; lia).
Qed.

Lemma fields_of_start D :
  Day (D * msPerDay) = D /\ TimeWithinDay (D * msPerDay) = 0 /\
  HourFromTime (D * msPerDay) = 0 /\ MinFromTime (D * msPerDay) = 0 /\
  SecFromTime (D * msPerDay) = 0.
Proof.
  unfold Day, TimeWithinDay, HourFromTime, MinFromTime, SecFromTime,
    msPerDay, msPerHour, msPerMinute, msPerSecond.
  repeat split; div_lia.
Qed.

Lemma setDate_start D x :
  setDate (D * msPerDay) x = (D - DateFromTime (D * msPerDay) + x) * msPerDay.
Proof.
  unfold setDate. rewrite MakeDay_of_time.
  destruct (fields_of_start D) as (-> & -> & _). unfold MakeDate. lia.
Qed.

Lemma setMilliseconds_start D : setMilliseconds (D * msPerDay) (-1) = D * msPerDay - 1.
Proof.
  unfold setMilliseconds. destruct (fields_of_start D) as (-> & _ & -> & -> & ->).
  unfold MakeDate, MakeTime. lia.
Qed.

Lemma WeekDay_start D : WeekDay (D * msPerDay) = (D + 4) mod 7.
Proof. unfold WeekDay. by destruct (fields_of_start D) as (-> & _). Qed.

(** The table of [getDateFilter], once the clock is at or after the
    epoch. *)
Lemma getDateFilter_table now period :
  0 <= now ->
  getDateFilter now period
  = property
      [ ("today", {| gte := startOfToday now; lte := endOfToday now |});
        ("yesterday", {| gte := startOfToday now - msPerDay; lte := startOfToday now - 1 |});
        ("this week", {| gte := startOfThisWeek now; lte := endOfToday now |});
        ("last week",
         {| gte := startOfThisWeek now - 7 * msPerDay; lte := startOfThisWeek now - 1 |});
        ("this month", {| gte := startOfThisMonth now; lte := endOfToday now |});
        ("last month",
         {| gte := startOfPreviousMonth now; lte := startOfThisMonth now - 1 |}) ]
      (Str.toLowerCase period).
Proof.
  intros Hnow. pose proof (YearFromTime_epoch now Hnow) as HY.
  unfold getDateFilter, getFullYear, getMonth, getDate, getDay. cbv zeta.
  rewrite !make_plain by lia. rewrite !MakeDay_of_time.
  assert (MakeDate (Day now - DateFromTime now + DateFromTime now) (MakeTime 0 0 0 0)
          = Day now * msPerDay) as -> by (unfold MakeDate, MakeTime; lia).
  rewrite !setDate_start, !setMilliseconds_start, !WeekDay_start.
  unfold startOfToday, endOfToday, startOfThisWeek, startOfThisMonth, startOfPreviousMonth,
    WeekDay, MakeDate, MakeTime, msPerDay, msPerHour, msPerMinute, msPerSecond.
  f_equal. repeat (f_equal; try lia).
Qed.






End DateFacts.

(** * Date ranges *)

Import Date Calendar DateFacts.







(** * Facts about the zones *)

Lemma UTC_plain zone c v : plain zone c v -> Zoned.UTC zone v = v - c.
Proof. intros [H _]. unfold Zoned.UTC. by rewrite H. Qed.

Lemma LocalTime_plain zone c v : plain zone c v -> Zoned.LocalTime zone (v - c) = v.
Proof. intros [_ H]. unfold Zoned.LocalTime. rewrite H. lia. Qed.

(** The local time values that [getDateFilter] makes, one by one. *)
Lemma local_steps L :
  0 <= L ->
  let sd := startOfToday L in
  let sw := startOfThisWeek L in
  Date.make (Date.getFullYear L) (Date.getMonth L) (Date.getDate L) 0 0 0 0 = sd /\
  Date.make (Date.getFullYear L) (Date.getMonth L) (Date.getDate L) 23 59 59 999
  = endOfToday L /\
  Date.setDate sd (Date.getDate sd - 1) = sd - msPerDay /\
  Date.setMilliseconds sd (-1) = sd - 1 /\
  Date.setDate sd (Date.getDate sd - Date.getDay sd) = sw /\
  Date.setDate sw (Date.getDate sw - 7) = sw - 7 * msPerDay /\
  Date.setMilliseconds sw (-1) = sw - 1 /\
  Date.make (Date.getFullYear L) (Date.getMonth L) 1 0 0 0 0 = startOfThisMonth L /\
  Date.make (Date.getFullYear L) (Date.getMonth L - 1) 1 0 0 0 0 = startOfPreviousMonth L /\
  Date.make (Date.getFullYear L) (Date.getMonth L) 0 23 59 59 999 = startOfThisMonth L - 1.
Proof.
  intros HL sd sw. pose proof (YearFromTime_epoch L HL) as HY.
  unfold sd, sw, getFullYear, getMonth, getDate, getDay,
    startOfToday, endOfToday, startOfThisWeek, startOfThisMonth, startOfPreviousMonth.
  rewrite !make_plain by lia. rewrite !MakeDay_of_time.
  rewrite !setDate_start, !setMilliseconds_start, !WeekDay_start.
  unfold WeekDay, MakeDate, MakeTime, msPerDay, msPerHour, msPerMinute, msPerSecond.
  repeat split; lia.
Qed.

(** Where no clock change disturbs the bounds, the ranges are those
    computed on the local reading of the clock, converted with the
    offset. *)
Lemma getDateFilter_undisturbed zone c now period :
  0 <= now + c -> undisturbed zone c now ->
  Zoned.getDateFilter zone now period
  = property
      [ ("today", {| gte := startOfToday (now + c) - c; lte := endOfToday (now + c) - c |});
        ("yesterday",
         {| gte := startOfToday (now + c) - msPerDay - c;
            lte := startOfToday (now + c) - 1 - c |});
        ("this week",
         {| gte := startOfThisWeek (now + c) - c; lte := endOfToday (now + c) - c |});
        ("last week",
         {| gte := startOfThisWeek (now + c) - 7 * msPerDay - c;
            lte := startOfThisWeek (now + c) - 1 - c |});
        ("this month",
         {| gte := startOfThisMonth (now + c) - c; lte := endOfToday (now + c) - c |});
        ("last month",
         {| gte := startOfPreviousMonth (now + c) - c;
            lte := startOfThisMonth (now + c) - 1 - c |}) ]
      (Str.toLowerCase period).
Proof.
  intros HL [Hnow Hbounds].
  unfold bounds_of in Hbounds.
  repeat (apply Forall_cons in Hbounds as [? Hbounds]).
  destruct (local_steps (now + c) HL)
    as (Hsd & Hed & Hsy & Hey & Hsw & Hslw & Helw & Hsm & Hslm & Helm).
  cbv zeta in *.
  assert (Zoned.LocalTime zone now = now + c) as Hlocal
    by (unfold Zoned.LocalTime; by rewrite Hnow).
  unfold Zoned.getDateFilter, Zoned.make, Zoned.getFullYear, Zoned.getMonth, Zoned.getDate,
    Zoned.getDay, Zoned.setDate, Zoned.setMilliseconds.
  cbv zeta. rewrite Hlocal, Hsd, Hed, Hsm, Hslm, Helm.
  rewrite (UTC_plain zone c (startOfToday (now + c))) by done.
  rewrite (LocalTime_plain zone c (startOfToday (now + c))) by done.
  rewrite Hsy, Hey, Hsw.
  rewrite (UTC_plain zone c (startOfThisWeek (now + c))) by done.
  rewrite (LocalTime_plain zone c (startOfThisWeek (now + c))) by done.
  rewrite Hslw, Helw.
  by rewrite !(UTC_plain zone c) by done.
Qed.

(** The ranges computed on local time values are the ranges of the code
    wherever no clock change disturbs the bounds: [getDateFilter] on the
    local reading of the clock, converted with the offset. *)
Lemma getDateFilter_local zone c now period :
  0 <= now + c -> undisturbed zone c now ->
  Zoned.getDateFilter zone now period = shift c <$> getDateFilter (now + c) period.
Proof.
  intros HL Hzone.
  rewrite (getDateFilter_undisturbed zone c now) by done.
  rewrite getDateFilter_table by done.
  unfold property. cbn [List.find fst snd].
  repeat (destruct (String.eqb _ (Str.toLowerCase period)); [done |]). done.
Qed.

Lemma undisturbed_fixedZone c now : undisturbed (fixedZone c) c now.
Proof. split; [done |]. unfold bounds_of. by repeat constructor. Qed.


(** The clocks of Cairo went forward at 00:00 of 24 April 2026.  At noon
    of that day the range of "today" starts at 01:00, the first instant of
    the day, and the range of "yesterday" ends one hour later, less one
    millisecond, not one millisecond before "today" starts. *)
Example skipped_midnight :
  exists today yesterday : DateRange,
    Zoned.getDateFilter cairo 1777021200000 "today" = Some today /\
    Zoned.getDateFilter cairo 1777021200000 "yesterday" = Some yesterday /\
    HourFromTime (Zoned.LocalTime cairo (gte today)) = 1 /\
    lte yesterday = gte today + 3599999.
Proof. do 2 eexists. split; [by vm_compute |]. split; by vm_compute. Qed.

(** The same zone in July of that year: no clock change disturbs the
    bounds made at noon of 15 July. *)
Example undisturbed_after_the_change : undisturbed cairo (3 * msPerHour) 1784106000000.
Proof. split; [done |]. unfold bounds_of. repeat constructor; by vm_compute. Qed.




(** * The store connection of [queryMongoDB] *)

Ltac not_in_calls :=
  let H := fresh in
  intros H; repeat (apply elem_of_cons in H as [H | H]; [discriminate H |]);
  by apply elem_of_nil in H.

(** The calls of [getDefectInfo] and of [queryComponentDetails]. *)
Lemma queryComponentDetails_calls R (w : World R) log componentName :
  exists text calls,
    queryComponentDetails R componentName w log = (Return text, log ++ calls) /\
    Close ∉ calls.
Proof.
  unfold queryComponentDetails, try_catch, bind, call.
  destruct (find_component w componentName) as [components | message].
  - destruct (length components =? 0)%nat.
    + eexists _, [_]. split; [reflexivity | not_in_calls].
    + destruct (getDefectInfo_returns R w
                  (log ++ [Find componentName no_conditions (Some 20%nat)])) as [defectMap ->].
      unfold lift. destruct (formatComponents R components) as [text | message].
      * eexists _, [_; _]. split; [by log_norm | not_in_calls].
      * destruct (Str.includes message "collection name must be a string");
          [| destruct (_ || _)]; eexists _, [_; _]; (split; [by log_norm | not_in_calls]).
  - destruct (Str.includes message "collection name must be a string");
      [| destruct (_ || _)]; eexists _, [_]; (split; [reflexivity | not_in_calls]).
Qed.

Lemma queryMongoDB_connected_calls R (w : World R) log q :
  exists text calls,
    try_catch (queryMongoDB_connected R q)
      (fun message => ret ("Error querying database: " +:+ message)) w log
    = (Return text, log ++ calls) /\
    Close ∉ calls.
Proof.
  unfold try_catch, queryMongoDB_connected, bind. unfold call at 1.
  destruct (connect w) as [[] | message].
  2:{ eexists _, [_]. split; [reflexivity | not_in_calls]. }
  destruct (truthy_text (extractComponentName q)).
  { destruct (queryComponentDetails_calls R w (log ++ [Connect])
                (default "" (extractComponentName q))) as (text & calls & -> & Hcalls).
    exists text, (Connect :: calls). split; [by log_norm |].
    intros [? | ?]%elem_of_cons; done. }
  destruct (getDefectInfo_returns R w (log ++ [Connect])) as [defectMap ->].
  destruct (needsAggregation (analyzeQuery q) || isComponentList (analyzeQuery q)).
  - unfold handleAggregationQuery, call.
    destruct (aggregate_Reports w _) as [results | message].
    + destruct (length (enhance defectMap <$> results) =? 0)%nat;
        eexists _, [_; _; _]; (split; [unfold ret; by log_norm | not_in_calls]).
    + eexists _, [_; _; _]. split; [unfold ret; by log_norm | not_in_calls].
  - unfold read, call.
    destruct (find_Reports w _) as [results | message].
    + destruct (length (enhance defectMap <$> results) =? 0)%nat;
        eexists _, [_; _; _]; (split; [unfold ret; by log_norm | not_in_calls]).
    + eexists _, [_; _; _]. split; [unfold ret; by log_norm | not_in_calls].
Qed.

(** X1. Without a connection string [queryMongoDB] makes no call and
    returns the text of the error; when the constructor of the client
    throws, it returns the text of the error and does not call [close]. *)
Theorem queryMongoDB_without_client (R : Runtime) (w : World R) (log : list Event) (q : string) :
  (truthy_text (MONGODB_URI w) = false ->
   queryMongoDB R q w log
   = (Return "Error querying database: MONGODB_URI is not set in environment variables", log)) /\
  (forall uri message,
      MONGODB_URI w = Some uri -> truthy_text (Some uri) = true ->
      newMongoClient w uri = Throw message ->
      queryMongoDB R q w log
      = (Return ("Error querying database: " +:+ message), log ++ [NewMongoClient uri])).
Proof.
  split.
  - intros H. unfold queryMongoDB, bind, read. by rewrite H.
  - intros uri message Huri Ht Hnew. unfold queryMongoDB, bind, read.
    rewrite Huri, Ht. cbn [negb from_option id]. unfold call. by rewrite Hnew.
Qed.

(** X2. Once the client is constructed, [close] is called on every path,
    exactly once and as the last call; [queryMongoDB] then returns a text,
    unless [close] itself throws, in which case it throws that error. *)
Theorem queryMongoDB_closes_client (R : Runtime) (w : World R) (log : list Event)
    (q uri : string) :
  MONGODB_URI w = Some uri -> truthy_text (Some uri) = true ->
  newMongoClient w uri = Return () ->
  exists outcome calls,
    queryMongoDB R q w log = (outcome, log ++ [NewMongoClient uri] ++ calls ++ [Close]) /\
    (Close ∉ calls) /\
    (close w = Return () -> exists text, outcome = Return text) /\
    (forall message, close w = Throw message -> outcome = Throw message).
Proof.
  intros Huri Ht Hnew. unfold queryMongoDB, bind, read.
  rewrite Huri, Ht. cbn [negb from_option id]. unfold call at 1. rewrite Hnew.
  unfold try_finally.
  destruct (queryMongoDB_connected_calls R w (log ++ [NewMongoClient uri]) q)
    as (text & calls & -> & Hcalls).
  unfold call. destruct (close w) as [[] | message].
  - exists (Return text), calls. split; [by log_norm |]. split; [done |].
    split; [by exists text | done].
  - exists (Throw message), calls. split; [by log_norm |]. split; [done |].
    split; [done | by intros ? [= ->]].
Qed.

(** * The flags of the intent *)

Lemma strip_plain_contains kw pre post m rest :
  Str.all Char.plain kw = true ->
  Regex.strip true kw post = Some (m, rest) ->
  contains_ci (pre +:+ post) kw /\ post = m +:+ rest.
Proof.
  intros Hplain [-> Hcanon]%RegexFacts.strip_insensitive.
  split; [| done]. exists pre, m, rest. split; [done |].
  by apply RegexFacts.map_Canonicalize_plain.
Qed.
Lemma isComponentList_intro q kw :
  kw ∈ ["component"; "part"] -> contains_ci q kw ->
  isComponentList (analyzeQuery q) = true.
Proof.
  intros Hkw (pre & m & post & -> & Hm).
  unfold analyzeQuery. cbn [isComponentList].
  rewrite !toLowerCase_app, Hm.
  apply (RegexFacts.test_intro _ _ (Str.toLowerCase pre) (kw +:+ Str.toLowerCase post)
           (kw, Str.toLowerCase post, [])); [done |].
  unfold re_isComponentList, alt_of. cbn [insensitive source ignoreCase foldr].
  assert (Regex.strip true kw (kw +:+ Str.toLowerCase post) = Some (kw, Str.toLowerCase post))
    as Hstrip by by apply RegexFacts.strip_insensitive.
  apply RegexFacts.elem_of_ways_Alt.
  apply elem_of_cons in Hkw as [-> | Hkw].
  - left. by apply RegexFacts.elem_of_ways_Lit.
  - apply list_elem_of_singleton in Hkw as ->. right.
    apply RegexFacts.elem_of_ways_Alt. left. by apply RegexFacts.elem_of_ways_Lit.
Qed.


Lemma map_app_inv f q x y :
  Str.map f q = x +:+ y -> exists a b, q = a +:+ b /\ Str.map f a = x /\ Str.map f b = y.
Proof.
  revert q. induction x as [|c x IH]; intros q H.
  - by exists "", q.
  - destruct q as [|d q]; [done |]. rewrite StrFacts.app_cons in H. simpl in H.
    injection H as <- H. destruct (IH q H) as (a & b & -> & <- & <-).
    by exists (String d a), b.
Qed.

(** A keyword found, whatever the case, at some place of the lower-case
    form of a question occurs in the question. *)
Lemma strip_lower_contains q kw pre' post' m rest :
  Str.all Char.plain kw = true ->
  Str.toLowerCase q = pre' +:+ post' ->
  Regex.strip true kw post' = Some (m, rest) ->
  contains_ci q kw.
Proof.
  intros Hplain Hq [-> Hcanon]%RegexFacts.strip_insensitive.
  apply map_app_inv in Hq as (a & bc & -> & _ & Hbc).
  apply map_app_inv in Hbc as (b & c & -> & Hb & _).
  exists a, b, c. split; [done |].
  apply RegexFacts.map_Canonicalize_plain; [done |].
  rewrite Hcanon, <- Hb. apply RegexFacts.map_Canonicalize_toLowerCase.
Qed.

Lemma test_elim re s :
  Regex.test re s = true ->
  exists pre post w,
    s = pre +:+ post /\ w ∈ Regex.ways (ignoreCase re) (source re) (Str.last None pre) post.
Proof.
  unfold Regex.test. intros [w Hw]%bool_decide_eq_true.
  apply RegexFacts.exec_elem in Hw as (pre & post & -> & Hin). by exists pre, post, w.
Qed.

(** The test of a list of keywords on the lower-case form of a question
    succeeds exactly when one of the keywords occurs in the question. *)
Lemma words_test_iff ws q :
  (forall kw, kw ∈ ws -> Str.all Char.plain kw = true) ->
  Regex.test (insensitive (words ws)) (Str.toLowerCase q) = true <->
  exists kw, kw ∈ ws /\ contains_ci q kw.
Proof.
  intros Hplain. split.
  - intros (pre & post & [[m rest] c] & Hq & Hin)%test_elim.
    cbn [insensitive source ignoreCase] in Hin.
    apply RegexFacts.elem_of_ways_words in Hin as (kw & Hkw & Hstrip & _).
    exists kw. split; [done |]. eapply strip_lower_contains; [by apply Hplain | done | done].
  - intros (kw & Hkw & Hci). by apply (keyword_test ws q kw).
Qed.

Ltac plain_words :=
  let kw := fresh in let H := fresh in
  intros kw H; repeat (apply elem_of_cons in H as [-> | H]; [done |]);
  by apply elem_of_nil in H.

(** What the pattern of a component listing finds: one of the two words. *)
Lemma isComponentList_elim s :
  Regex.test re_isComponentList s = true ->
  exists kw pre post m rest,
    kw ∈ ["component"; "part"] /\ s = pre +:+ post /\
    Regex.strip true kw post = Some (m, rest).
Proof.
  intros (pre & post & [[m rest] c] & -> & Hin)%test_elim.
  unfold re_isComponentList, alt_of, seq_of in Hin.
  cbn [insensitive source ignoreCase foldr] in Hin.
  assert (forall word prev s0 m0 rest0 c0,
             (m0, rest0, c0)
               ∈ Regex.ways true
                   (Seq (Lit word) (Seq (star Char.dot) (Seq (Lit "component") Empty)))
                   prev s0 ->
             exists m1 m3 rest3,
               s0 = m1 +:+ rest3 /\ Regex.strip true "component" rest3 = Some (m3, rest0))
    as Hseq.
  { intros word prev s0 m0 rest0 c0 H.
    apply RegexFacts.elem_of_ways_Seq in H as (m1 & s1 & c1 & m2 & c2 & H1 & H2 & _).
    apply RegexFacts.elem_of_ways_Lit in H1 as [[Hs1 _]%RegexFacts.strip_insensitive _].
    apply RegexFacts.elem_of_ways_Seq in H2 as (m3 & s3 & c3 & m4 & c4 & H3 & H4 & _).
    apply RegexFacts.elem_of_ways_Rep in H3 as (Hs3 & _).
    apply RegexFacts.elem_of_ways_Seq in H4 as (m5 & s5 & c5 & m6 & c6 & H5 & H6 & _).
    apply RegexFacts.elem_of_ways_Lit in H5 as [H5 _].
    apply RegexFacts.elem_of_ways_Empty in H6 as (_ & -> & _).
    exists (m1 +:+ m3), m5, s3. split; [| done].
    by rewrite Hs1, Hs3, StrFacts.app_assoc. }
  apply RegexFacts.elem_of_ways_Alt in Hin as [Hin | Hin].
  { apply RegexFacts.elem_of_ways_Lit in Hin as [Hin _].
    exists "component", pre, post, m, rest. split; [by left | done]. }
  apply RegexFacts.elem_of_ways_Alt in Hin as [Hin | Hin].
  { apply RegexFacts.elem_of_ways_Lit in Hin as [Hin _].
    exists "part", pre, post, m, rest. split; [right; by left | done]. }
  assert (exists m1 m3 rest3,
             post = m1 +:+ rest3 /\ Regex.strip true "component" rest3 = Some (m3, rest))
    as (m1 & m3 & rest3 & -> & Hstrip).
  { apply RegexFacts.elem_of_ways_Alt in Hin as [Hin | Hin]; [by eapply Hseq |].
    apply RegexFacts.elem_of_ways_Alt in Hin as [Hin | Hin]; [by eapply Hseq |].
    apply RegexFacts.elem_of_ways_Alt in Hin as [Hin | Hin]; [by eapply Hseq |].
    by apply RegexFacts.elem_of_ways_Never in Hin. }
  exists "component", (pre +:+ m1), rest3, m3, rest.
  split; [by left |]. split; [by rewrite StrFacts.app_assoc | done].
Qed.

(** X3. The flags are decided by occurrence, anywhere in the question and
    in any case, also inside a longer word: the question is an NG query
    exactly when it contains ng, not good, defect or reject; it needs an
    aggregation exactly when it contains one of the ten aggregation words;
    it is comparative exactly when it contains more, less, greater, than or
    compare; and it is a component listing exactly when it contains
    component or part, the three longer alternatives of the pattern adding
    nothing. *)
Theorem intent_flags_by_occurrence (q : string) :
  (isNGQuery (analyzeQuery q) = true <->
   exists kw, kw ∈ ["ng"; "not good"; "defect"; "reject"] /\ contains_ci q kw) /\
  (needsAggregation (analyzeQuery q) = true <->
   exists kw,
     kw ∈ ["most"; "max"; "maximum"; "highest"; "lowest"; "min"; "minimum"; "average";
           "sum"; "total"] /\ contains_ci q kw) /\
  (isComparative (analyzeQuery q) = true <->
   exists kw, kw ∈ ["more"; "less"; "greater"; "than"; "compare"] /\ contains_ci q kw) /\
  (isComponentList (analyzeQuery q) = true <->
   exists kw, kw ∈ ["component"; "part"] /\ contains_ci q kw).
Proof.
  unfold analyzeQuery. cbn [isNGQuery needsAggregation isComparative isComponentList].
  split; [apply words_test_iff; plain_words |].
  split; [apply words_test_iff; plain_words |].
  split; [apply words_test_iff; plain_words |].
  split.
  - intros (kw & pre & post & m & rest & Hkw & Hq & Hstrip)%isComponentList_elim.
    exists kw. split; [done |].
    eapply strip_lower_contains; [| done | done].
    clear Hstrip. revert kw Hkw. plain_words.
  - intros (kw & Hkw & Hci). by apply (isComponentList_intro q kw).
Qed.
(** * Questions about components *)

Lemma exec_component_contains q w :
  Regex.exec re_component q = Some w ->
  exists kw, kw ∈ ["component"; "part"] /\ contains_ci q kw.
Proof.
  intros (pre & post & -> & Hin)%RegexFacts.exec_elem.
  destruct w as [[m rest] c].
  unfold re_component, seq_of in Hin. cbn [insensitive source ignoreCase foldr] in Hin.
  apply RegexFacts.elem_of_ways_Seq in Hin as (m1 & s1 & c1 & m2 & c2 & H1 & _).
  apply RegexFacts.elem_of_ways_Group in H1 as (c' & H1 & _).
  apply RegexFacts.elem_of_ways_words in H1 as (kw & Hkw & Hstrip & _).
  exists kw. split; [done |].
  eapply strip_plain_contains; [| exact Hstrip].
  apply elem_of_cons in Hkw as [-> | Hkw]; [done |].
  by apply list_elem_of_singleton in Hkw as ->.
Qed.

(** X4. The predicate that [parseQuery] returns never constrains the
    component name: the pattern that captures a component name needs the
    word component or part, and a question with one of these words is a
    component listing, for which all conditions are given up. *)
Theorem parseQuery_never_constrains_component (Date_parse : string -> option Z) (now : Z)
    (q : string) :
  component_name (parseQuery Date_parse now q) = None.
Proof.
  unfold parseQuery.
  destruct (isGeneralQuery (analyzeQuery q) || isComponentList (analyzeQuery q)) eqn:E;
    [done |].
  apply orb_false_iff in E as [_ E].
  unfold buildConditions. cbn [component_name].
  destruct (Regex.exec re_component q) as [w |] eqn:Hw; [| done].
  apply exec_component_contains in Hw as (kw & Hkw & Hci).
  by rewrite (isComponentList_intro q kw Hkw Hci) in E.
Qed.

(** A text that passes the test of a component listing passes the test of
    the component keywords. *)
Lemma isComponentList_keywords s :
  Regex.test re_isComponentList s = true -> Regex.test re_componentKeywords s = true.
Proof.
  intros (kw & pre & post & m & rest & Hkw & -> & Hstrip)%isComponentList_elim.
  apply (RegexFacts.test_intro _ _ pre post (m, rest, [])); [done |].
  unfold re_componentKeywords. cbn [insensitive source ignoreCase].
  apply RegexFacts.elem_of_ways_words. exists kw. split; [| done].
  unfold component_keywords.
  apply elem_of_cons in Hkw as [-> | Hkw]; [by left |].
  apply list_elem_of_singleton in Hkw as ->. right. by left.
Qed.

(** X5. Through the entry point a component listing never reaches the
    store: a question classified as a component listing that names no
    component is answered by the guidance message, without any call. *)
Theorem answer_listing_without_calls (R : Runtime) (w : World R) (log : list Event)
    (q : string) :
  isComponentList (analyzeQuery q) = true -> extractComponentName q = None ->
  answer R q w log = (Return guidance, log).
Proof.
  intros Hlist Hname. unfold analyzeQuery in Hlist. cbn [isComponentList] in Hlist.
  unfold answer, try_catch.
  by rewrite Hname, (isComponentList_keywords _ Hlist).
Qed.

(** * Thresholds and absolute dates *)

Lemma parseInt_go_digits acc s :
  Str.all Char.digit s = true -> 0 <= default 0 acc ->
  (s <> "" \/ is_Some acc) ->
  exists n,
    (fix go (acc : option Z) (s : string) : option Z :=
       match s with
       | String c s' =>
           if Char.digit c
           then go (Some (10 * default 0 acc + Z.of_N (Char.code c - 48))) s'
           else acc
       | EmptyString => acc
       end) acc s = Some n /\ 0 <= n.
Proof.
  revert acc. induction s as [|c s IH]; intros acc Hall Hacc Hne.
  - destruct Hne as [? | [n ->]]; [done |]. by exists n.
  - cbn [Str.all] in Hall. apply andb_true_iff in Hall as [Hc Hall]. rewrite Hc.
    apply IH; [done | | right; by eexists]. cbn [from_option id]. lia.
Qed.

(** [parseInt] of a non-empty text of digits is a number, not [NaN]. *)
Lemma parseInt_digits s :
  s <> "" -> Str.all Char.digit s = true -> exists n, Text.parseInt s = Some n /\ 0 <= n.
Proof.
  intros Hne Hall. unfold Text.parseInt. apply parseInt_go_digits; [done | done | by left].
Qed.

Lemma group_found n m c c' : Regex.group n (m, c, (n, m) :: c') = Some m.
Proof. unfold Regex.group. cbn. by rewrite Nat.eqb_refl. Qed.

(** What [match] with the production pattern captures. *)
Lemma exec_production q w :
  Regex.exec re_production q = Some w ->
  exists digits,
    Regex.group 2 w = Some digits /\ digits <> "" /\ Str.all Char.digit digits = true.
Proof.
  intros (pre & post & -> & Hin)%RegexFacts.exec_elem.
  destruct w as [[m rest] c].
  unfold re_production, seq_of, lazy_star, plus in Hin.
  cbn [insensitive source ignoreCase foldr] in Hin.
  apply RegexFacts.elem_of_ways_Seq in Hin as (m1 & s1 & c1 & m2 & c2 & H1 & H2 & _ & ->).
  apply RegexFacts.elem_of_ways_Group in H1 as (c1' & H1 & ->).
  apply RegexFacts.elem_of_ways_words in H1 as (kw & _ & _ & ->).
  apply RegexFacts.elem_of_ways_Seq in H2 as (m3 & s3 & c3 & m4 & c4 & H3 & H4 & _ & ->).
  apply RegexFacts.elem_of_ways_Rep in H3 as (_ & _ & _ & _ & ->).
  apply RegexFacts.elem_of_ways_Seq in H4 as (m5 & s5 & c5 & m6 & c6 & H5 & H6 & _ & ->).
  apply RegexFacts.elem_of_ways_Group in H5 as (c5' & H5 & ->).
  apply RegexFacts.elem_of_ways_Rep in H5 as (_ & Hall & Hlo & _ & ->).
  apply RegexFacts.elem_of_ways_Empty in H6 as (_ & _ & ->).
  exists m5. split; [done |]. split; [| done].
  intros ->. simpl in Hlo. lia.
Qed.

(** X6. A question with production or quantity followed, anywhere later,
    by digits gets the threshold disjunction on [actual_production] and
    [planned_quantity], with a number that is never [NaN] nor negative, and
    this disjunction replaces the one on performance and quality; without
    such a match the disjunction is the one on performance and quality, or
    there is none. *)
Theorem production_threshold (Date_parse : string -> option Z) (now : Z) (q : string) :
  match Regex.exec re_production q with
  | Some _ =>
      exists n,
        0 <= n /\
        or_ (buildConditions Date_parse now q)
        = Some [("actual_production", AtLeast (Some n));
                ("planned_quantity", AtLeast (Some n))]
  | None =>
      or_ (buildConditions Date_parse now q)
      = if Regex.test re_performance q
        then Some [("performance", ExistsAndNotNull); ("quality", ExistsAndNotNull)]
        else None
  end.
Proof.
  unfold buildConditions. cbn [or_].
  destruct (Regex.exec re_production q) as [w |] eqn:Hw; [| done].
  destruct (exec_production q w Hw) as (digits & -> & Hne & Hall).
  destruct (parseInt_digits digits Hne Hall) as (n & Hn & Hpos).
  exists n. split; [done |]. cbn. by rewrite Hn.
Qed.



(** In a zone without clock changes the date condition of the code is the
    one that [buildConditions] computes on local time values, converted
    with the offset. *)
Lemma date_condition_fixedZone c Date_parse now q :
  0 <= now + c ->
  Zoned.date_condition (fixedZone c) Date_parse now q
  = shift c <$> date (buildConditions (fun text => (fun t => t + c) <$> Date_parse text)
                        (now + c) q).
Proof.
  intros HL. unfold Zoned.date_condition, buildConditions. cbn [date]. cbv zeta.
  destruct (Regex.exec re_relativeDate q) as [m |].
  { apply getDateFilter_local; [done | apply undisturbed_fixedZone]. }
  destruct (Regex.exec re_absoluteDate q) as [m |]; [| done].
  destruct (Date_parse _) as [t |]; [| done]. cbn.
  unfold shift, Zoned.setHours, Zoned.UTC, Zoned.LocalTime.
  cbn [fixedZone LocalTZA_utc LocalTZA_local gte lte].
  by replace (setHours (t + c) 0 0 0 0 - c + c) with (setHours (t + c) 0 0 0 0) by lia.
Qed.


(** * Where the periods start *)


(** * The catalog of defects *)

Lemma pretty_N_go_ne_proto x s : s <> "__proto__" -> pretty_N_go x s <> "__proto__".
Proof.
  revert s. induction (N.lt_wf_0 x) as [x _ IH]; intros s Hs.
  assert (x = 0 \/ 0 < x)%N as [-> | Hx] by lia.
  - by rewrite pretty_N_go_0.
  - rewrite pretty_N_go_step by done. apply IH.
    { by apply N.div_lt. }
    unfold pretty_N_char. by repeat case_match.
Qed.

(** The decimal text of a number is not the text __proto__. *)
Lemma number_text_not_proto (n : Z) : ToString (JNum n) <> "__proto__".
Proof.
  cbn [ToString]. unfold pretty, pretty_Z.
  destruct n as [| n | n]; [done | |].
  - unfold pretty, pretty_positive, pretty, pretty_N.
    destruct (decide _); [done |]. by apply pretty_N_go_ne_proto.
  - done.
Qed.

Lemma mapDefectOccurrences_key_present counts defectMap defectType i c :
  counts !! i = Some c -> 0 < c ->
  defect_label defectMap i <> "__proto__" ->
  is_Some (mapDefectOccurrences (OccArray counts) defectMap defectType
             !! defect_label defectMap i).
Proof.
  revert i c. induction counts as [|x counts IH] using rev_ind; intros i c Hl Hc Hproto;
    [done |].
  rewrite mapDefectOccurrences_snoc.
  apply lookup_app_Some in Hl as [Hl | [Hlen Hl]].
  - specialize (IH i c Hl Hc Hproto). destruct (0 <? x); [| done].
    rewrite lookup_assign. by destruct (decide _).
  - apply list_lookup_singleton_Some in Hl as [Hi ->].
    assert (i = length counts) as -> by lia.
    assert ((0 <? c) = true) as -> by by apply Z.ltb_lt.
    rewrite lookup_assign. destruct (decide _) as [| Hno]; [by eexists |].
    by destruct Hno.
Qed.

Lemma buildDefectMap_snoc defects defect :
  buildDefectMap (defects ++ [defect])
  = assign (ToString (DefectDoc.defect_id defect)) (info_of defect) (buildDefectMap defects).
Proof. unfold buildDefectMap. by rewrite forEach_snoc. Qed.

(** X9. The own properties of the catalog built from the documents found:
    under the text of a defect id other than __proto__ stand the fields of
    the last document with that id, and there is no other own property; in
    particular a document whose id is the text __proto__ leaves none.  The
    lookup of a defect number, which is how [mapDefectOccurrences] reads
    the catalog, finds the last document whose id has the decimal text of
    the number. *)
Theorem buildDefectMap_lookup (defects : list DefectDoc.t) :
  (forall (key : string) (info : DefectInfo.t),
      buildDefectMap defects !! key = Some info <->
      key <> "__proto__" /\
      exists i defect,
        defects !! i = Some defect /\ ToString (DefectDoc.defect_id defect) = key /\
        info = info_of defect /\
        forall j later,
          (i < j)%nat -> defects !! j = Some later ->
          ToString (DefectDoc.defect_id later) <> key) /\
  (forall (defectId : Z) (info : DefectInfo.t),
      buildDefectMap defects !! ToString (JNum defectId) = Some info <->
      exists i defect,
        defects !! i = Some defect /\
        ToString (DefectDoc.defect_id defect) = ToString (JNum defectId) /\
        info = info_of defect /\
        forall j later,
          (i < j)%nat -> defects !! j = Some later ->
          ToString (DefectDoc.defect_id later) <> ToString (JNum defectId)).
Proof.
  assert (forall key info,
             buildDefectMap defects !! key = Some info <->
             key <> "__proto__" /\
             exists i defect,
               defects !! i = Some defect /\ ToString (DefectDoc.defect_id defect) = key /\
               info = info_of defect /\
               forall j later,
                 (i < j)%nat -> defects !! j = Some later ->
                 ToString (DefectDoc.defect_id later) <> key) as Hown.
  { induction defects as [|defect defects IH] using rev_ind; intros key info.
    - split; [done |]. by intros (_ & i & d & Hl & _).
    - rewrite buildDefectMap_snoc, lookup_assign.
      destruct (decide _) as [[<- Hproto] | Hno].
      + split.
        * intros [= <-]. split; [done |]. exists (length defects), defect.
          split; [by rewrite lookup_app_r, Nat.sub_diag by lia |]. repeat split.
          intros j later Hj Hl%lookup_lt_Some. rewrite length_app in Hl. simpl in Hl. lia.
        * intros (_ & i & d & Hl & Hkey & -> & Hlast).
          apply lookup_app_Some in Hl as [Hl | [Hlen Hl]].
          -- exfalso.
             apply (Hlast (length defects) defect); [by eapply lookup_lt_Some | | done].
             by rewrite lookup_app_r, Nat.sub_diag by lia.
          -- by apply list_lookup_singleton_Some in Hl as [_ ->].
      + rewrite IH. split.
        * intros (Hkey & i & d & Hl & Hid & -> & Hlast). split; [done |]. exists i, d.
          split; [by apply lookup_app_l_Some |]. repeat split; [done |].
          intros j later Hj Hl'. apply lookup_app_Some in Hl' as [Hl' | [_ Hl']].
          -- by eapply Hlast.
          -- apply list_lookup_singleton_Some in Hl' as [_ <-].
             intros Heq. apply Hno. split; [done |]. by rewrite Heq.
        * intros (Hkey & i & d & Hl & Hid & -> & Hlast). split; [done |].
          apply lookup_app_Some in Hl as [Hl | [_ Hl]].
          -- exists i, d. repeat split; [done .. |].
             intros j later Hj Hl'. apply (Hlast j later Hj). by apply lookup_app_l_Some.
          -- apply list_lookup_singleton_Some in Hl as [_ <-].
             destruct Hno. split; [done |]. by rewrite Hid. }
  split; [exact Hown |].
  intros defectId info. rewrite Hown. split; [by intros [_ H] |].
  intros H. split; [| done]. apply number_text_not_proto.
Qed.

Lemma defect_label_empty i :
  defect_label ∅ i = "Unknown_Defect_" +:+ pretty (Z.of_nat i + 1).
Proof. unfold defect_label. by rewrite lookup_empty. Qed.

Lemma labels_distinct_empty counts : labels_distinct ∅ counts.
Proof.
  intros i j ci cj _ _. rewrite !defect_label_empty.
  intros H%(inj (String.app _))%(inj pretty). lia.
Qed.

(** X10. For every catalog: every entry of the mapping has a count greater
    than 0, found in the array at an index whose label is the key; an index
    with a count greater than 0 has its label among the keys exactly when
    the label is not the text __proto__; and a value that is not an array
    gives the empty mapping. *)
Theorem mapDefectOccurrences_sound (counts : list Z)
    (defectMap : gmap string DefectInfo.t) (defectType : JsVal) :
  (forall key e,
      mapDefectOccurrences (OccArray counts) defectMap defectType !! key = Some e ->
      0 < MappedDefect.count e /\
      exists i, (counts !! i = Some (MappedDefect.count e)) /\ key = defect_label defectMap i) /\
  (forall i c,
      counts !! i = Some c -> 0 < c ->
      is_Some (mapDefectOccurrences (OccArray counts) defectMap defectType
                 !! defect_label defectMap i) <->
      defect_label defectMap i <> "__proto__") /\
  mapDefectOccurrences OccAbsent defectMap defectType = ∅ /\
  mapDefectOccurrences OccOther defectMap defectType = ∅.
Proof.
  split; [| split; [| done]].
  - intros key e (_ & i & c & [Hl Hc] & -> & -> & _)%mapDefectOccurrences_lookup.
    assert (MappedDefect.count (defect_entry defectMap defectType i c) = c) as ->
      by (unfold defect_entry; by destruct (defectMap !! _)).
    split; [done |]. by exists i.
  - intros i c Hl Hc. split.
    + intros [e He] Hproto. rewrite Hproto in He.
      by rewrite mapDefectOccurrences_proto in He.
    + intros Hproto. by apply (mapDefectOccurrences_key_present counts defectMap defectType i c).
Qed.

(** X11. With the empty catalog, which is what [getDefectInfo] returns when
    the catalog cannot be read, no count is lost: the mapping has, for
    every index [i] with a count greater than 0 and for nothing else, the
    entry of that count under the label Unknown_Defect_ followed by
    [i + 1]. *)
Theorem unknown_defects_without_catalog (R : Runtime) (w : World R) (log : list Event)
    (message : string) (counts : list Z) (defectType : JsVal) :
  find_Defects w = Throw message ->
  exists defectMap log',
    getDefectInfo R w log = (Return defectMap, log') /\
    forall key e,
      mapDefectOccurrences (OccArray counts) defectMap defectType !! key = Some e <->
      exists i c,
        counts !! i = Some c /\ 0 < c /\
        key = "Unknown_Defect_" +:+ pretty (Z.of_nat i + 1) /\
        e = {| MappedDefect.count := c;
               MappedDefect.description :=
                 JStr ("Unknown defect with ID " +:+ pretty (Z.of_nat i + 1));
               MappedDefect.is_acceptable := JStr "unknown";
               MappedDefect.defect_type := js_or defectType (JStr "unknown") |}.
Proof.
  intros Hthrow. exists ∅, (log ++ [Find "Defects" no_conditions None]). split.
  { unfold getDefectInfo, try_catch, bind, call. by rewrite Hthrow. }
  intros key e. rewrite mapDefectOccurrences_lookup. split.
  - intros (_ & i & c & [Hl Hc] & -> & -> & _). exists i, c.
    rewrite defect_label_empty. unfold defect_entry. by rewrite lookup_empty.
  - intros (i & c & Hl & Hc & -> & ->). split; [done |]. exists i, c.
    rewrite defect_label_empty. unfold defect_entry. rewrite lookup_empty.
    repeat split; [done .. |].
    intros j cj Hj Hpos Heq.
    pose proof (labels_distinct_empty counts j i cj c Hpos (conj Hl Hc)) as Hd.
    rewrite !defect_label_empty in Hd. specialize (Hd Heq). lia.
Qed.

(** * Batch identifiers *)

Lemma rev_app_app s t u : String.rev_app (s +:+ t) u = String.rev_app t (String.rev_app s u).
Proof.
  revert u. induction s as [|c s IH]; intros u; [done |].
  rewrite StrFacts.app_cons. simpl. apply IH.
Qed.













(** * Failures of the store and of the model *)

Lemma queryMongoDB_with_client R (w : World R) log q uri :
  MONGODB_URI w = Some uri -> truthy_text (Some uri) = true ->
  newMongoClient w uri = Return () -> close w = Return () ->
  queryMongoDB R q w log
  = let '(outcome, log') :=
      try_catch (queryMongoDB_connected R q)
        (fun message => ret ("Error querying database: " +:+ message)) w
        (log ++ [NewMongoClient uri]) in
    (outcome, log' ++ [Close]).
Proof.
  intros Huri Ht Hnew Hclose. unfold queryMongoDB, bind, read.
  rewrite Huri, Ht. cbn [negb from_option id]. unfold call at 1. rewrite Hnew.
  unfold try_finally.
  destruct (try_catch _ _ w (log ++ [NewMongoClient uri])) as [outcome log'].
  unfold call. by rewrite Hclose.
Qed.

Lemma queryMongoDB_connect_failure R (w : World R) log q uri message :
  MONGODB_URI w = Some uri -> truthy_text (Some uri) = true ->
  newMongoClient w uri = Return () -> close w = Return () ->
  connect w = Throw message ->
  queryMongoDB R q w log
  = (Return ("Error querying database: " +:+ message),
     log ++ [NewMongoClient uri; Connect; Close]).
Proof.
  intros Huri Ht Hnew Hclose Hcon.
  rewrite (queryMongoDB_with_client R w log q uri) by done.
  unfold try_catch, queryMongoDB_connected, bind. unfold call at 1. rewrite Hcon.
  unfold ret. by log_norm.
Qed.

(** Past the guidance guard, [answer] on the text that [queryMongoDB]
    returned. *)
Lemma answer_with_results R (w : World R) log q dbResults log' :
  Regex.test re_componentKeywords (Str.toLowerCase q)
  && negb (truthy_text (extractComponentName q)) = false ->
  queryMongoDB R q w log = (Return dbResults, log') ->
  let prompt :=
    if truthy_text (extractComponentName q)
    then componentPrompt R q dbResults (clock w)
    else productionPrompt R q dbResults (clock w) in
  answer R q w log
  = (match generateContent w prompt with
     | Return text => Return text
     | Throw message => Return (error_answer message)
     end,
     log' ++ [GenerateContent prompt]).
Proof.
  intros Hguard Hdb prompt. unfold answer, try_catch, bind.
  rewrite Hguard, Hdb. unfold read, call. fold prompt.
  destruct (generateContent w prompt) as [text | message]; [done |].
  unfold error_answer. by destruct (_ || _).
Qed.

(** X13. With the client constructed and closed without error: a failure
    of [connect], of the find or of the aggregation on the reports is
    returned as the text Error querying database: followed by the
    message of the error; a failure to read the catalog of defects is not
    reported at all, the reports are then presented with the empty
    catalog. *)
Theorem queryMongoDB_store_failures (R : Runtime) (w : World R) (log : list Event)
    (q uri : string) :
  MONGODB_URI w = Some uri -> truthy_text (Some uri) = true ->
  newMongoClient w uri = Return () -> close w = Return () ->
  (forall message,
      connect w = Throw message ->
      queryMongoDB R q w log
      = (Return ("Error querying database: " +:+ message),
         log ++ [NewMongoClient uri; Connect; Close])) /\
  (forall message,
      connect w = Return () -> extractComponentName q = None ->
      reports_query_result R w q = Throw message ->
      (queryMongoDB R q w log).1 = Return ("Error querying database: " +:+ message)) /\
  (forall message results,
      connect w = Return () -> extractComponentName q = None ->
      find_Defects w = Throw message ->
      reports_query_result R w q = Return results ->
      (queryMongoDB R q w log).1
      = Return (if (length results =? 0)%nat then no_reports
                else JSON_stringify R (format <$> (enhance ∅ <$> results)))).
Proof.
  intros Huri Ht Hnew Hclose.
  split; [| split].
  - intros message Hcon. by apply queryMongoDB_connect_failure.
  - intros message Hcon Hname Hres.
    rewrite (queryMongoDB_with_client R w log q uri) by done.
    unfold try_catch, queryMongoDB_connected, bind. unfold call at 1.
    rewrite Hcon, Hname. cbn [truthy_text].
    destruct (getDefectInfo_returns R w ((log ++ [NewMongoClient uri]) ++ [Connect]))
      as [defectMap ->].
    unfold reports_query_result in Hres.
    destruct (needsAggregation (analyzeQuery q) || isComponentList (analyzeQuery q)).
    + unfold handleAggregationQuery, call. by rewrite Hres.
    + unfold read, call. by rewrite Hres.
  - intros message results Hcon Hname Hdefects Hres.
    rewrite (queryMongoDB_with_client R w log q uri) by done.
    unfold try_catch, queryMongoDB_connected, bind. unfold call at 1.
    rewrite Hcon, Hname. cbn [truthy_text].
    unfold getDefectInfo, try_catch, bind. unfold call at 1. rewrite Hdefects.
    unfold ret at 1. unfold reports_query_result in Hres.
    destruct (needsAggregation (analyzeQuery q) || isComponentList (analyzeQuery q)).
    + unfold handleAggregationQuery, call. rewrite Hres. cbv beta iota.
      rewrite length_fmap. by destruct (length results =? 0)%nat.
    + unfold read, call. rewrite Hres. cbv beta iota.
      rewrite length_fmap. by destruct (length results =? 0)%nat.
Qed.

(** X14. When the store cannot be reached, a question that passes the
    guidance guard and names no component still goes to the model: the
    calls are the construction of the client, [connect], [close] and the
    model, whose prompt carries the text of the database error in the
    place of the data. *)
Theorem answer_after_connection_failure (R : Runtime) (w : World R) (log : list Event)
    (q uri message : string) :
  Regex.test re_componentKeywords (Str.toLowerCase q) = false ->
  extractComponentName q = None ->
  MONGODB_URI w = Some uri -> truthy_text (Some uri) = true ->
  newMongoClient w uri = Return () -> close w = Return () ->
  connect w = Throw message ->
  let prompt := productionPrompt R q ("Error querying database: " +:+ message) (clock w) in
  answer R q w log
  = (match generateContent w prompt with
     | Return text => Return text
     | Throw message' => Return (error_answer message')
     end,
     log ++ [NewMongoClient uri; Connect; Close; GenerateContent prompt]).
Proof.
  intros Hkw Hname Huri Ht Hnew Hclose Hcon prompt.
  pose proof (queryMongoDB_connect_failure R w log q uri message Huri Ht Hnew Hclose Hcon)
    as Hfail.
  pose proof (answer_with_results R w log q _ _ ltac:(by rewrite Hkw) Hfail) as Hanswer.
  rewrite Hname in Hanswer. cbn in Hanswer. fold prompt in Hanswer.
  rewrite Hanswer. by log_norm.
Qed.

(** X15. Through [answer], a question with an aggregation keyword that
    passes the guidance guard and names no component runs one of two
    fixed pipelines on the reports, the NG pipeline or the sort by
    production with limit 10, and never a find: a batch identifier, a date
    or a threshold in the question has no effect on the query. *)
Theorem aggregation_ignores_conditions (R : Runtime) (w : World R) (log : list Event)
    (q uri : string) :
  Regex.test re_componentKeywords (Str.toLowerCase q) = false ->
  extractComponentName q = None ->
  needsAggregation (analyzeQuery q) = true ->
  MONGODB_URI w = Some uri -> truthy_text (Some uri) = true ->
  newMongoClient w uri = Return () -> connect w = Return () -> close w = Return () ->
  exists dbResults text,
    let pipeline :=
      if isNGQuery (analyzeQuery q) then ng_pipeline else production_pipeline in
    let prompt := productionPrompt R q dbResults (clock w) in
    answer R q w log
    = (Return text,
       log ++ [NewMongoClient uri; Connect; Find "Defects" no_conditions None;
               Aggregate "Reports" pipeline; Close; GenerateContent prompt]).
Proof.
  intros Hkw Hname Hagg Huri Ht Hnew Hcon Hclose.
  assert (isComponentList (analyzeQuery q) = false) as Hlist.
  { destruct (isComponentList (analyzeQuery q)) eqn:Hl; [| done].
    unfold analyzeQuery in Hl. cbn [isComponentList] in Hl.
    by rewrite (isComponentList_keywords _ Hl) in Hkw. }
  assert (choosePipeline (analyzeQuery q)
          = if isNGQuery (analyzeQuery q) then ng_pipeline else production_pipeline)
    as Hpipeline.
  { unfold choosePipeline. rewrite Hlist, Hagg. by destruct (isNGQuery _). }
  assert (exists dbResults,
             queryMongoDB R q w log
             = (Return dbResults,
                log ++ [NewMongoClient uri; Connect; Find "Defects" no_conditions None;
                        Aggregate "Reports" (choosePipeline (analyzeQuery q)); Close]))
    as [dbResults Hdb].
  { rewrite (queryMongoDB_with_client R w log q uri) by done.
    unfold try_catch, queryMongoDB_connected, bind. unfold call at 1.
    rewrite Hcon, Hname. cbn [truthy_text].
    destruct (getDefectInfo_returns R w ((log ++ [NewMongoClient uri]) ++ [Connect]))
      as [defectMap ->].
    rewrite Hagg. cbn [orb]. unfold handleAggregationQuery, call.
    destruct (aggregate_Reports w _) as [results | message].
    - destruct (length (enhance defectMap <$> results) =? 0)%nat; unfold ret;
        log_norm; eauto.
    - unfold ret. log_norm. eauto. }
  pose proof (answer_with_results R w log q _ _ ltac:(by rewrite Hkw) Hdb) as Hanswer.
  rewrite Hname in Hanswer. cbn [truthy_text] in Hanswer. cbv zeta in Hanswer.
  rewrite Hpipeline in Hanswer.
  exists dbResults.
  destruct (generateContent w (productionPrompt R q dbResults (clock w))) as [text | message];
    eexists; cbv zeta; rewrite Hanswer; by log_norm.
Qed.

(** * The server *)

Lemma answer_returns R (w : World R) log question :
  exists text log', answer R question w log = (Return text, log').
Proof.
  unfold answer, try_catch.
  match goal with
  | |- exists _ _, match ?c with _ => _ end = _ => destruct c as [[text | message] log']
  end; [by eauto |].
  destruct (_ || _); unfold ret; eauto.
Qed.

Lemma initializeProductionAgent_cases R (w : World R) log :
  exists log',
    initializeProductionAgent R w log = (Return (answer R), log') \/
    initializeProductionAgent R w log = (Throw "MongoDB connection failed", log') \/
    initializeProductionAgent R w log
    = (Throw "Gemini API test failed. Please check your API key.", log').
Proof.
  unfold initializeProductionAgent, bind.
  match goal with
  | |- context [try_catch ?b ?h w log] =>
      assert (exists log', try_catch b h w log = (Return (), log')
                           \/ try_catch b h w log = (Throw "MongoDB connection failed", log'))
        as (log' & [-> | ->])
  end.
  - unfold try_catch.
    match goal with
    | |- exists _, match ?c with _ => _ end = _ \/ _ => destruct c as [[[] | message] log']
    end; unfold throw; eauto.
  - unfold testGeminiAPI, try_catch, bind, call, ret, throw.
    destruct (generateContent w _); simpl; eauto.
  - eauto.
Qed.

Lemma installed_returns R agent (w : World R) log question :
  installed R agent -> exists text log', agent question w log = (Return text, log').
Proof.
  intros [-> | ->]; [apply answer_returns |].
  unfold Server.fallbackAgent, ret. eauto.
Qed.

Lemma listen_cases R (w : World R) log st :
  exists st' log',
    Server.listen R (initializeProductionAgent R) st w log = (Return st', log') /\
    Server.initializationWarnings st' = Server.initializationWarnings st /\
    ((Server.productionAgent st' = Some (answer R) /\
      Server.initializationError st' = Server.initializationError st /\
      (initializeProductionAgent R w log).1 = Return (answer R)) \/
     (Server.productionAgent st' = Some (Server.fallbackAgent R) /\
      exists message,
        Server.initializationError st' = Some message /\
        (initializeProductionAgent R w log).1 = Throw message /\
        (message = "MongoDB connection failed" \/
         message = "Gemini API test failed. Please check your API key."))).
Proof.
  unfold Server.listen, try_catch, bind.
  destruct (initializeProductionAgent_cases R w log) as (log' & [-> | [-> | ->]]);
    unfold ret; do 2 eexists; (split; [reflexivity |]); cbn; (split; [done |]);
    [left | right | right]; eauto 10.
Qed.

(** X16. The start of the server always installs an agent, whatever the
    store and the model do: the agent of [initializeProductionAgent] when
    it returns, and otherwise the fallback agent, with one of the two
    start-up messages recorded as the error.  From then on the health
    endpoint reports the status OK and an initialized agent, also after a
    failed initialization. *)
Theorem listen_installs_agent (R : Runtime) (w : World R) (log : list Event)
    (st : Server.State R) :
  exists st' log',
    Server.listen R (initializeProductionAgent R) st w log = (Return st', log') /\
    ((Server.productionAgent st' = Some (answer R) /\
      Server.initializationError st' = Server.initializationError st) \/
     (Server.productionAgent st' = Some (Server.fallbackAgent R) /\
      (Server.initializationError st' = Some "MongoDB connection failed" \/
       Server.initializationError st'
       = Some "Gemini API test failed. Please check your API key."))) /\
    Server.health_status (Server.health R st') = "OK" /\
    Server.agentInitialized (Server.health R st') = true /\
    Server.error (Server.health R st') = Server.initializationError st'.
Proof.
  destruct (listen_cases R w log st) as (st' & log' & Hlisten & _ & Hcases).
  exists st', log'. split; [exact Hlisten |].
  unfold Server.health. cbn.
  destruct Hcases as [(Hagent & Herror & _) | (Hagent & message & Herror & _ & Hmessage)];
    rewrite Hagent.
  - repeat split; [| done..]. by left.
  - repeat split; [| done..]. right. split; [done |].
    rewrite Herror. by destruct Hmessage as [-> | ->]; [left | right].
Qed.

(** X17. Once the server has started, the handler of the query endpoint
    answers every request that the JSON middleware passes on to it,
    whatever the body, and never with the status 503.  The status is 200
    exactly when the body is an object whose question is a text that is
    not blank, and the response is then the text that the agent returned:
    no failure of the store or of the model turns into the status 500.
    The handler refuses every other body with 400 or 500 without a call of
    the store or of the model.  The test endpoint always answers with the
    status 200. *)
Theorem postQuery_after_startup (R : Runtime) (w0 : World R) (log0 log1 : list Event)
    (st : Server.State R) (w : World R) (log : list Event) (body : option Server.Body) :
  Server.listen R (initializeProductionAgent R) (Server.loaded R) w0 log0 = (Return st, log1) ->
  exists response log',
    Server.postQuery R st body w log = (Return response, log') /\
    (Server.status response = 200 \/ Server.status response = 400 \/
     Server.status response = 500) /\
    (Server.status response = 200 <->
     exists s, Server.destructure body = Return (Some (Server.JsonString s)) /\
               Text.trim s <> "") /\
    (Server.status response = 200 ->
     exists s agent text,
       Server.destructure body = Return (Some (Server.JsonString s)) /\
       Server.productionAgent st = Some agent /\
       agent s w log = (Return text, log') /\
       Server.json response = Server.Answer text) /\
    (Server.status response <> 200 -> log' = log) /\
    (exists text log'',
        Server.getTest R st w log
        = (Return {| Server.status := 200; Server.json := Server.Success text |}, log'')).
Proof.
  intros Hlisten.
  assert (exists agent, Server.productionAgent st = Some agent /\ installed R agent)
    as (agent & Hagent & Hinstalled).
  { destruct (listen_cases R w0 log0 (Server.loaded R)) as (st' & log' & Hl & _ & Hcases).
    rewrite Hlisten in Hl. injection Hl as <- <-.
    destruct Hcases as [(Ha & _) | (Ha & _)]; eexists; (split; [exact Ha |]);
      [by left | by right]. }
  assert (exists text log'',
             Server.getTest R st w log
             = (Return {| Server.status := 200; Server.json := Server.Success text |}, log''))
    as Htest.
  { unfold Server.getTest, try_catch, bind. rewrite Hagent.
    destruct (installed_returns R agent w log "Test connection - what can you help me with?"
                Hinstalled) as (text & log'' & ->).
    unfold ret. eauto. }
  unfold Server.postQuery, try_catch, bind, lift. rewrite Hagent.
  destruct (Server.destructure body) as [question | message] eqn:Hbody.
  2:{ unfold ret. do 2 eexists. split; [reflexivity |]. cbn.
      repeat split; try done; auto.
      intros (s & Hs & _). done. }
  destruct (Server.truthy question) eqn:Htruthy; cbn [negb].
  2:{ unfold ret. do 2 eexists. split; [reflexivity |]. cbn.
      repeat split; try done; auto.
      intros (s & Hs & Hblank). injection Hs as ->. cbn in Htruthy.
      destruct s; [| done]. exfalso. by apply Hblank. }
  destruct question as [[| b | n | s | items | fields] |]; cbn [Server.receiver_of_trim];
    try (unfold ret; do 2 eexists; (split; [reflexivity |]); cbn;
         repeat split; try done; auto; intros (s' & Hs & _); done).
  destruct (String.length (Text.trim s) =? 0)%nat eqn:Hlen.
  { unfold ret. do 2 eexists. split; [reflexivity |]. cbn.
    repeat split; try done; auto.
    intros (s' & Hs & Hblank). injection Hs as <-.
    apply Nat.eqb_eq in Hlen. exfalso. apply Hblank. by destruct (Text.trim s). }
  destruct (installed_returns R agent w log s Hinstalled) as (text & log' & Hrun).
  rewrite Hrun. unfold ret. do 2 eexists. split; [reflexivity |]. cbn.
  repeat split; try done; auto.
  - intros _. exists s. split; [done |]. intros Hblank. by rewrite Hblank in Hlen.
  - intros _. by exists s, agent, text.
Qed.

(** X18. After a failed initialization the server never tries again: every
    question that is not blank, and the test endpoint, get the status 200
    with the text of the fallback agent, and neither the store nor the
    model is called. *)
Theorem postQuery_after_failed_startup (R : Runtime) (w0 : World R) (log0 log1 : list Event)
    (st : Server.State R) (message : string) :
  (initializeProductionAgent R w0 log0).1 = Throw message ->
  Server.listen R (initializeProductionAgent R) (Server.loaded R) w0 log0 = (Return st, log1) ->
  let apology :=
    "The AI agent is experiencing technical difficulties. Please try again later or contact support." in
  Server.initializationError st = Some message /\
  forall (w : World R) (log : list Event),
    (forall s, Text.trim s <> "" ->
       Server.postQuery R st (Server.asking (Server.JsonString s)) w log
       = (Return {| Server.status := 200; Server.json := Server.Answer apology |}, log)) /\
    Server.getTest R st w log
    = (Return {| Server.status := 200; Server.json := Server.Success apology |}, log).
Proof.
  intros Hthrow Hlisten apology.
  destruct (listen_cases R w0 log0 (Server.loaded R)) as (st' & log' & Hl & _ & Hcases).
  rewrite Hlisten in Hl. injection Hl as <- <-.
  destruct Hcases as [(_ & _ & Hret) | (Hagent & message' & Herror & Hthrow' & _)];
    [by rewrite Hthrow in Hret |].
  rewrite Hthrow in Hthrow'. injection Hthrow' as <-.
  split; [done |]. intros w log. split.
  - intros s Hs. unfold Server.postQuery, try_catch, bind, lift. rewrite Hagent.
    cbn [Server.asking Server.destructure]. cbv [Server.property foldl fst snd String.eqb Ascii.eqb Bool.eqb].
    cbn [Server.truthy].
    destruct (String.eqb s "") eqn:Hempty.
    { apply String.eqb_eq in Hempty. subst s. by destruct Hs. }
    cbn [negb Server.receiver_of_trim].
    destruct (String.length (Text.trim s) =? 0)%nat eqn:Hlen.
    { apply Nat.eqb_eq in Hlen. exfalso. apply Hs. by destruct (Text.trim s). }
    by unfold Server.fallbackAgent, ret.
  - unfold Server.getTest, try_catch, bind. rewrite Hagent.
    by unfold Server.fallbackAgent, ret.
Qed.

(** * The client *)

Lemma length_slice_to n s : (n <= String.length s)%nat -> String.length (App.slice_to n s) = n.
Proof.
  unfold App.slice_to. revert s. induction n as [|n IH]; intros s Hn.
  - by destruct s.
  - destruct s as [|c s]; simpl in *; [lia |]. rewrite IH; [done | lia].
Qed.

Lemma slice_to_all s : App.slice_to (String.length s) s = s.
Proof. unfold App.slice_to. induction s as [|c s IH]; simpl; [done | by rewrite IH]. Qed.

Lemma typing_typed st role text k :
  (k < String.length text)%nat ->
  App.typing (typed st role text k) = typed st role text (S k).
Proof.
  intros Hk. unfold App.typing, typed.
  cbn [App.streamingMessage App.streaming_content App.fullContent App.streaming_role
       App.input App.conversation App.loading App.error].
  rewrite length_slice_to by lia.
  destruct (Nat.ltb_spec k (String.length text)); [| lia].
  by rewrite Nat.add_1_r.
Qed.

Lemma typing_typed_all st role text :
  App.typing (typed st role text (String.length text)) = delivered st text.
Proof.
  unfold App.typing, typed.
  cbn [App.streamingMessage App.streaming_content App.fullContent App.streaming_role
       App.input App.conversation App.loading App.error].
  rewrite slice_to_all.
  by rewrite Nat.ltb_irrefl, Nat.eqb_refl.
Qed.

Lemma typing_delivered st text : App.typing (delivered st text) = delivered st text.
Proof. done. Qed.

Lemma typing_iter st role text k j :
  (k <= String.length text)%nat ->
  Nat.iter j App.typing (typed st role text k)
  = if (k + j <=? String.length text)%nat then typed st role text (k + j)
    else delivered st text.
Proof.
  intros Hk. induction j as [|j IH].
  - rewrite Nat.add_0_r. by destruct (Nat.leb_spec k (String.length text)); [| lia].
  - rewrite Nat.iter_succ, IH.
    destruct (Nat.leb_spec (k + j) (String.length text)) as [Hj | Hj].
    + destruct (Nat.leb_spec (k + S j) (String.length text)) as [Hj' | Hj'].
      * rewrite Nat.add_succ_r. apply typing_typed. lia.
      * assert (k + j = String.length text)%nat as -> by lia. apply typing_typed_all.
    + destruct (Nat.leb_spec (k + S j) (String.length text)); [lia |].
      apply typing_delivered.
Qed.

Lemma handleSubmit_settled_typed text st :
  exists st0,
    App.handleSubmit_settled (Return text) st = typed st0 "assistant" text 0 /\
    App.conversation st0 = App.conversation st.
Proof.
  exists {| App.input := ""; App.conversation := App.conversation st; App.loading := false;
            App.error := App.error st; App.streamingMessage := None |}.
  split; [| done]. unfold App.handleSubmit_settled, typed. cbn. by destruct text.
Qed.

(** X19. The typing effect delivers every answer it starts on: after a
    response with the text [text] has arrived, [k] runs of the effect, for
    [k] up to the length of the text, show the first [k] characters of the
    text and leave the conversation as it was; one more run after the last
    character appends the whole text to the conversation as a message of
    the assistant and ends the typing, and later runs change nothing. *)
Theorem typing_delivers_the_answer (st : App.State) (text : string) (k : nat) :
  let after n := Nat.iter n App.typing (App.handleSubmit_settled (Return text) st) in
  ((k <= String.length text)%nat ->
   App.conversation (after k) = App.conversation st /\
   App.streamingMessage (after k)
   = Some {| App.streaming_role := "assistant";
             App.streaming_content := App.slice_to k text;
             App.fullContent := text |}) /\
  ((String.length text < k)%nat ->
   App.conversation (after k)
   = App.conversation st ++ [{| App.role := "assistant"; App.content := text |}] /\
   App.streamingMessage (after k) = None).
Proof.
  intros after. unfold after.
  destruct (handleSubmit_settled_typed text st) as (st0 & -> & Hconversation).
  rewrite typing_iter by lia. cbn [Nat.add]. split; intros Hk.
  - destruct (Nat.leb_spec k (String.length text)); [| lia]. cbn. by rewrite Hconversation.
  - destruct (Nat.leb_spec k (String.length text)); [lia |]. cbn. by rewrite Hconversation.
Qed.

(** X20. A response that arrives while an earlier answer is still being
    typed replaces it.  Left alone, the typing effect would add the
    earlier answer to the conversation after finitely many runs; once the
    new response has arrived, the conversation only ever gains the new
    text, so that the earlier answer is never added. *)
Theorem later_response_replaces_typing (st : App.State) (earlier : App.Streaming)
    (text : string) :
  App.streamingMessage st = Some earlier ->
  (String.length (App.streaming_content earlier)
   < String.length (App.fullContent earlier))%nat ->
  (exists n,
      App.conversation (Nat.iter n App.typing st)
      = App.conversation st
        ++ [{| App.role := "assistant"; App.content := App.fullContent earlier |}]) /\
  (forall n,
      let st' := Nat.iter n App.typing (App.handleSubmit_settled (Return text) st) in
      App.conversation st' = App.conversation st \/
      App.conversation st'
      = App.conversation st ++ [{| App.role := "assistant"; App.content := text |}]).
Proof.
  intros Hearlier Hshort. split.
  - set (k := String.length (App.streaming_content earlier)) in *.
    set (full := App.fullContent earlier) in *.
    exists (S (String.length full - k)).
    rewrite Nat.iter_succ_r.
    assert (App.typing st = typed st (App.streaming_role earlier) full (S k)) as ->.
    { unfold App.typing, typed. rewrite Hearlier. fold k full.
      destruct (Nat.ltb_spec k (String.length full)); [| lia].
      by rewrite Nat.add_1_r. }
    rewrite typing_iter by lia.
    by destruct (Nat.leb_spec (S k + (String.length full - k)) (String.length full)); [lia |].
  - intros n st'. unfold st'.
    destruct (handleSubmit_settled_typed text st) as (st0 & -> & Hconversation).
    rewrite typing_iter by lia.
    destruct (0 + n <=? String.length text)%nat; cbn; rewrite Hconversation; auto.
Qed.

Lemma postQuery_text R (st : Server.State R) agent s (w : World R) log text log' :
  Server.productionAgent st = Some agent ->
  Text.trim s <> "" ->
  agent s w log = (Return text, log') ->
  Server.postQuery R st (Server.asking (Server.JsonString s)) w log
  = (Return {| Server.status := 200; Server.json := Server.Answer text |}, log').
Proof.
  intros Hagent Hs Hrun. unfold Server.postQuery, try_catch, bind, lift. rewrite Hagent.
  cbn [Server.asking Server.destructure].
  cbv [Server.property foldl fst snd String.eqb Ascii.eqb Bool.eqb].
  cbn [Server.truthy].
  destruct (String.eqb s "") eqn:Hempty.
  { apply String.eqb_eq in Hempty. subst s. by destruct Hs. }
  cbn [negb Server.receiver_of_trim].
  destruct (String.length (Text.trim s) =? 0)%nat eqn:Hlen.
  { apply Nat.eqb_eq in Hlen. exfalso. apply Hs. by destruct (Text.trim s). }
  by rewrite Hrun.
Qed.

(** X21. The client and the server agree on what a question is: whatever
    the client sends, which is its input when that is not blank and no
    request is pending, the started server answers with the status 200 and
    a text.  While the request is pending the client ignores further
    submissions. *)
Theorem client_question_is_answered (R : Runtime) (w0 : World R) (log0 log1 : list Event)
    (server : Server.State R) (client client' : App.State) (question : string)
    (w : World R) (log : list Event) :
  Server.listen R (initializeProductionAgent R) (Server.loaded R) w0 log0
  = (Return server, log1) ->
  App.handleSubmit_request client = Some (client', question) ->
  (exists text log',
      Server.postQuery R server (Server.asking (Server.JsonString question)) w log
      = (Return {| Server.status := 200; Server.json := Server.Answer text |}, log')) /\
  question = App.input client /\
  App.conversation client'
  = App.conversation client ++ [{| App.role := "user"; App.content := question |}] /\
  App.handleSubmit_request client' = None.
Proof.
  intros Hlisten Hsubmit. unfold App.handleSubmit_request in Hsubmit.
  destruct (String.eqb (Text.trim (App.input client)) "") eqn:Hblank; [done |].
  destruct (App.loading client); [done |]. cbn in Hsubmit. injection Hsubmit as <- <-.
  apply String.eqb_neq in Hblank.
  split; [| split; [done | split; [done |]]].
  - destruct (listen_cases R w0 log0 (Server.loaded R)) as (st' & log' & Hl & _ & Hcases).
    rewrite Hlisten in Hl. injection Hl as <- <-.
    assert (exists agent, Server.productionAgent server = Some agent /\ installed R agent)
      as (agent & Hagent & Hinstalled).
    { destruct Hcases as [(Ha & _) | (Ha & _)]; eexists; (split; [exact Ha |]);
        [by left | by right]. }
    destruct (installed_returns R agent w log (App.input client) Hinstalled)
      as (text & log'' & Hrun).
    exists text, log''. by apply (postQuery_text R server agent).
  - unfold App.handleSubmit_request. cbn. by rewrite orb_true_r.
Qed.

(** * Instances *)

Lemma queryMongoDB_closes_client_witness :
  exists outcome calls,
    queryMongoDB sampleRuntime "show reports of lot 77" emptyStore []
    = (outcome, [] ++ [NewMongoClient "mongodb://localhost:27017"] ++ calls ++ [Close]) /\
    (Close ∉ calls) /\
    (close emptyStore = Return () -> exists text, outcome = Return text) /\
    (forall message, close emptyStore = Throw message -> outcome = Throw message).
Proof.
  apply (queryMongoDB_closes_client sampleRuntime emptyStore [] "show reports of lot 77"
           "mongodb://localhost:27017"); reflexivity.
Defined.

Lemma answer_listing_without_calls_witness :
  answer sampleRuntime "list everything we have in parts" emptyStore []
  = (Return guidance, []).
Proof.
  apply (answer_listing_without_calls sampleRuntime emptyStore []
           "list everything we have in parts"); by vm_compute.
Defined.



Lemma unknown_defects_without_catalog_witness :
  exists defectMap log',
    getDefectInfo sampleRuntime storeWithoutCatalog [] = (Return defectMap, log') /\
    mapDefectOccurrences (OccArray [0; 4]) defectMap (JStr "ocr") !! "Unknown_Defect_2"
    = Some {| MappedDefect.count := 4;
              MappedDefect.description := JStr "Unknown defect with ID 2";
              MappedDefect.is_acceptable := JStr "unknown";
              MappedDefect.defect_type := JStr "ocr" |}.
Proof.
  destruct (unknown_defects_without_catalog sampleRuntime storeWithoutCatalog []
              "not authorized on test to execute command find" [0; 4] (JStr "ocr") eq_refl)
    as (defectMap & log' & Hget & Hmap).
  exists defectMap, log'. split; [exact Hget |].
  apply Hmap. exists 1%nat, 4. by vm_compute.
Defined.

Lemma queryMongoDB_store_failures_witness :
  queryMongoDB sampleRuntime "show reports of lot 77" unreachableStore []
  = (Return "Error querying database: connect ECONNREFUSED 127.0.0.1:27017",
     [NewMongoClient "mongodb://localhost:27017"; Connect; Close]) /\
  (queryMongoDB sampleRuntime "show reports of lot 77" storeWithoutReports []).1
  = Return "Error querying database: not authorized on test to execute command find".
Proof.
  split.
  - destruct (queryMongoDB_store_failures sampleRuntime unreachableStore []
                "show reports of lot 77" "mongodb://localhost:27017"
                eq_refl eq_refl eq_refl eq_refl) as (H & _).
    exact (H "connect ECONNREFUSED 127.0.0.1:27017" eq_refl).
  - destruct (queryMongoDB_store_failures sampleRuntime storeWithoutReports []
                "show reports of lot 77" "mongodb://localhost:27017"
                eq_refl eq_refl eq_refl eq_refl) as (_ & H & _).
    apply (H "not authorized on test to execute command find"); by vm_compute.
Defined.

Lemma answer_after_connection_failure_witness :
  answer sampleRuntime "show reports of lot 77" unreachableStore []
  = (Return "FINAL ANSWER: nothing was found.",
     [NewMongoClient "mongodb://localhost:27017"; Connect; Close;
      GenerateContent
        (productionPrompt sampleRuntime "show reports of lot 77"
           "Error querying database: connect ECONNREFUSED 127.0.0.1:27017"
           1793574000123)]).
Proof.
  apply (answer_after_connection_failure sampleRuntime unreachableStore []
           "show reports of lot 77" "mongodb://localhost:27017"
           "connect ECONNREFUSED 127.0.0.1:27017"); by vm_compute.
Defined.

Lemma aggregation_ignores_conditions_witness :
  exists dbResults text,
    answer sampleRuntime "highest production of lot 7 last week" emptyStore []
    = (Return text,
       [NewMongoClient "mongodb://localhost:27017"; Connect;
        Find "Defects" no_conditions None; Aggregate "Reports" production_pipeline; Close;
        GenerateContent
          (productionPrompt sampleRuntime "highest production of lot 7 last week"
             dbResults 1793574000123)]).
Proof.
  destruct (aggregation_ignores_conditions sampleRuntime emptyStore []
              "highest production of lot 7 last week" "mongodb://localhost:27017")
    as (dbResults & text & H); try by vm_compute.
  exists dbResults, text. exact H.
Defined.

Lemma postQuery_after_startup_witness :
  exists response log',
    Server.postQuery sampleRuntime startedServer
      (Server.asking (Server.JsonString "show reports of lot 77")) emptyStore []
    = (Return response, log') /\
    Server.status response = 200.
Proof.
  destruct (postQuery_after_startup sampleRuntime emptyStore []
              [NewMongoClient "mongodb://localhost:27017"; Connect;
               Find "Defects" no_conditions None; Close;
               GenerateContent "Hello, this is a test message."]
              startedServer emptyStore []
              (Server.asking (Server.JsonString "show reports of lot 77")))
    as (response & log' & Hpost & _ & Hstatus & _); [reflexivity |].
  exists response, log'. split; [exact Hpost |].
  apply Hstatus. exists "show reports of lot 77". split; [reflexivity | by vm_compute].
Defined.

Lemma postQuery_after_failed_startup_witness :
  Server.postQuery sampleRuntime degradedServer
    (Server.asking (Server.JsonString "show reports of lot 77")) emptyStore []
  = (Return {| Server.status := 200;
               Server.json :=
                 Server.Answer
                   "The AI agent is experiencing technical difficulties. Please try again later or contact support." |},
     []).
Proof.
  destruct (postQuery_after_failed_startup sampleRuntime unreachableStore []
              [NewMongoClient "mongodb://localhost:27017"; Connect]
              degradedServer "MongoDB connection failed" eq_refl eq_refl)
    as (_ & H).
  destruct (H emptyStore []) as (Hpost & _).
  apply Hpost. by vm_compute.
Defined.

Lemma typing_delivers_the_answer_witness :
  App.conversation
    (Nat.iter 2 App.typing (App.handleSubmit_settled (Return "No reports.") idleClient))
  = [] /\
  App.streamingMessage
    (Nat.iter 2 App.typing (App.handleSubmit_settled (Return "No reports.") idleClient))
  = Some {| App.streaming_role := "assistant";
            App.streaming_content := "No";
            App.fullContent := "No reports." |}.
Proof.
  destruct (typing_delivers_the_answer idleClient "No reports." 2) as (H & _).
  apply H. simpl. lia.
Defined.

Lemma later_response_replaces_typing_witness :
  let st' :=
    Nat.iter 40 App.typing
      (App.handleSubmit_settled (Return "Two batches were produced.") typingClient) in
  App.conversation st' = App.conversation typingClient \/
  App.conversation st'
  = App.conversation typingClient
    ++ [{| App.role := "assistant"; App.content := "Two batches were produced." |}].
Proof.
  destruct (later_response_replaces_typing typingClient
              {| App.streaming_role := "assistant";
                 App.streaming_content := "No";
                 App.fullContent := "No reports were found." |}
              "Two batches were produced." eq_refl) as (_ & H); [simpl; lia |].
  exact (H 40%nat).
Defined.

Lemma client_question_is_answered_witness :
  exists text log',
    Server.postQuery sampleRuntime startedServer
      (Server.asking (Server.JsonString "show reports of lot 77")) emptyStore []
    = (Return {| Server.status := 200; Server.json := Server.Answer text |}, log').
Proof.
  destruct (client_question_is_answered sampleRuntime emptyStore []
              [NewMongoClient "mongodb://localhost:27017"; Connect;
               Find "Defects" no_conditions None; Close;
               GenerateContent "Hello, this is a test message."]
              startedServer idleClient
              {| App.input := "show reports of lot 77";
                 App.conversation :=
                   [{| App.role := "user"; App.content := "show reports of lot 77" |}];
                 App.loading := true;
                 App.error := "";
                 App.streamingMessage := None |}
              "show reports of lot 77" emptyStore [] eq_refl)
    as (H & _); [by vm_compute |].
  exact H.
Defined.
